(** * Nucleus: the indexed FASTA reader and its single-slot read cache

    A shallow embedding of [nucleus/io/indexed_fasta_reader.cc]:
    [IndexedFastaReader::GetBases], [IndexedFastaReader::Close] and
    [IndexedFastaReaderIterable::Next], with the reader's mutable members
    ([faidx_], [small_read_cache_], [cached_range_]) threaded explicitly and
    every call of htslib's [faidx_fetch_seq] recorded in a log. *)

From Stdlib Require Import ZArith String Ascii List Bool Lia DecimalString.
Import ListNotations.

Local Open Scope string_scope.
Local Open Scope Z_scope.

(** ** Status codes and results *)

(** The three [tensorflow::errors] codes the reader produces. *)
Inductive Code : Type := NotFound | InvalidArgument | FailedPrecondition.

(** What a call hands back: a value, a non-OK [tensorflow::Status], or no
    return at all because the process was terminated (a failed [CHECK], a
    [ValueOrDie] on an error, an uncaught [std::out_of_range]). *)
Inductive Result (A : Type) : Type :=
| Value (a : A)
| Failure (c : Code)
| Die.
Arguments Value {A} a.
Arguments Failure {A} c.
Arguments Die {A}.

(** ** Protocol buffers *)

(** [nucleus.genomics.v1.Range]; [start] and [end_] are int64 fields.
    The constructor is the source's [MakeRange(name, start, end)]. *)
Record Range : Type := MakeRange {
  reference_name : string;
  start : Z;
  end_ : Z
}.

(** [nucleus.genomics.v1.ContigInfo] as [ExtractContigsFromFai] fills it. *)
Record ContigInfo : Type := MakeContigInfo {
  name : string;
  description : string;
  n_bases : Z;
  pos_in_fasta : Z
}.

(** ** Machine integers *)

Definition INT_MAX : Z := 2147483647.
Definition INT64_MAX : Z := 9223372036854775807.

(** Two's-complement reduction of an int64 result. *)
Definition int64_wrap (z : Z) : Z := (z + 2 ^ 63) mod 2 ^ 64 - 2 ^ 63.

(** ** Strings *)

(** [absl::ascii_toupper]: the 26 lower-case letters move, nothing else does. *)
Definition is_lower (c : ascii) : bool :=
  let n := N_of_ascii c in (97 <=? n)%N && (n <=? 122)%N.

Definition ascii_toupper (c : ascii) : ascii :=
  if is_lower c then ascii_of_N (N_of_ascii c - 32) else c.

Fixpoint AsciiStrToUpper (s : string) : string :=
  match s with
  | EmptyString => EmptyString
  | String c s' => String (ascii_toupper c) (AsciiStrToUpper s')
  end.

(** No lower-case letter occurs in [s]. *)
Fixpoint all_upper (s : string) : bool :=
  match s with
  | EmptyString => true
  | String c s' => negb (is_lower c) && all_upper s'
  end.

(** [std::string::substr(pos, n)]: throws [std::out_of_range] when [pos]
    is past the end, otherwise copies [min(n, size - pos)] characters. *)
Definition substr (s : string) (pos n : Z) : option string :=
  let size := Z.of_nat (String.length s) in
  if size <? pos then None
  else Some (substring (Z.to_nat pos) (Z.to_nat (Z.min n (size - pos))) s).

(** ** The sequence store *)

(** htslib's [faidx_t] handle, an external collaborator, through the four
    entry points the reader calls.  [faidx_iseq] yields [None] for a null
    name; [faidx_fetch_seq c_name p_beg_i p_end_i] yields the fetched C
    string together with the output variable [len] (the length of the
    fetched region, -2 when [c_name] is absent, -1 on a general error).
    Its [int] parameters receive positions within a contig, whose length
    is itself an [int] from [faidx_seq_len]. *)
Record faidx_t : Type := MakeFaidx {
  faidx_nseq : Z;
  faidx_iseq : Z -> option string;
  faidx_seq_len : string -> Z;
  faidx_fetch_seq : string -> Z -> Z -> string * Z
}.

(** One recorded invocation of [faidx_fetch_seq]: name, first base, last
    base (inclusive). *)
Record FetchCall : Type := MakeFetchCall {
  fc_name : string;
  fc_beg : Z;
  fc_end : Z
}.

(** ** The reader *)

(** The members of [IndexedFastaReader].  [faidx_ = None] is the null
    pointer of a closed reader; [cached_range_ = None] is the empty
    optional the constructor leaves. *)
Record IndexedFastaReader : Type := MakeReader {
  fasta_path_ : string;
  faidx_ : option faidx_t;
  contigs_ : list ContigInfo;
  cache_size_bases_ : Z;
  small_read_cache_ : string;
  cached_range_ : option Range
}.

Definition set_cache (r : IndexedFastaReader) (bases : string) (w : Range)
  : IndexedFastaReader :=
  MakeReader (fasta_path_ r) (faidx_ r) (contigs_ r) (cache_size_bases_ r)
             bases (Some w).

Definition set_faidx (r : IndexedFastaReader) (f : option faidx_t)
  : IndexedFastaReader :=
  MakeReader (fasta_path_ r) f (contigs_ r) (cache_size_bases_ r)
             (small_read_cache_ r) (cached_range_ r).

(** The loop of [ExtractContigsFromFai] (lines 44-53) from index [i] on,
    [n] contigs to go.  A null name fails [CHECK_NE], a negative length
    fails [CHECK_GE]. *)
Fixpoint extract_contigs (faidx : faidx_t) (i : Z) (n : nat)
  : Result (list ContigInfo) :=
  match n with
  | O => Value []
  | S n' =>
      match faidx_iseq faidx i with
      | None => Die
      | Some nm =>
          let len := faidx_seq_len faidx nm in
          if len <? 0 then Die
          else
            match extract_contigs faidx (i + 1) n' with
            | Value contigs => Value (MakeContigInfo nm "" len i :: contigs)
            | other => other
            end
      end
  end.

(** [ExtractContigsFromFai] (lines 40-55).  A negative [n_contigs] makes
    the vector's constructor throw. *)
Definition ExtractContigsFromFai (faidx : faidx_t)
  : Result (list ContigInfo) :=
  let n_contigs := faidx_nseq faidx in
  if n_contigs <? 0 then Die
  else extract_contigs faidx 0 (Z.to_nat n_contigs).

(** The constructor (lines 85-92), as [FromFile] calls it on a loaded
    index. *)
Definition new_IndexedFastaReader (fasta_path : string) (faidx : faidx_t)
    (cache_size_bases : Z) : Result IndexedFastaReader :=
  match ExtractContigsFromFai faidx with
  | Value contigs =>
      Value (MakeReader fasta_path (Some faidx) contigs cache_size_bases
                        "" None)
  | Failure c => Failure c
  | Die => Die
  end.

(** Modelled from the spec: [GenomeReference::Contig] lives in
    nucleus/io/reference.cc, which is not among the sources.  The spec's
    "Lookup(name) -> ContigInfo, fails NotFound if absent"; the catalog is
    scanned in ordinal order. *)
Definition Contig (r : IndexedFastaReader) (contig_name : string)
  : Result ContigInfo :=
  match find (fun c => String.eqb (name c) contig_name) (contigs_ r) with
  | Some c => Value c
  | None => Failure NotFound
  end.

(** Modelled from the spec: [GenomeReference::IsValidInterval] lives in
    nucleus/io/reference.cc, which is not among the sources.  The spec's
    "reference name must resolve in the catalog; 0 <= start <= end <=
    contig.length". *)
Definition IsValidInterval (r : IndexedFastaReader) (range : Range) : bool :=
  match Contig r (reference_name range) with
  | Value c =>
      (0 <=? start range) && (start range <=? end_ range)
      && (end_ range <=? n_bases c)
  | _ => false
  end.

(** Modelled from the spec: [RangeContains] lives in nucleus/util/utils.cc,
    which is not among the sources.  The spec's containment: "the same
    reference_name and window.start <= range.start /\ range.end <=
    window.end". *)
Definition RangeContains (haystack needle : Range) : bool :=
  String.eqb (reference_name needle) (reference_name haystack)
  && (start haystack <=? start needle)
  && (end_ needle <=? end_ haystack).

(** [use_cache] of [GetBases] (lines 115-116). *)
Definition use_cache (r : IndexedFastaReader) (range : Range) : bool :=
  (0 <? cache_size_bases_ r)
  && (end_ range - start range <=? cache_size_bases_ r).

(** The cache test of line 120, [cached_range_ && RangeContains(...)]: the
    cached window when it contains [range]. *)
Definition cache_lookup (r : IndexedFastaReader) (range : Range)
  : option Range :=
  match cached_range_ r with
  | Some w => if RangeContains w range then Some w else None
  | None => None
  end.

(** The [else] branch of lines 126-133: the chunk to fetch on a cached-mode
    miss.  [ValueOrDie] and [CHECK] terminate the process, hence [None]. *)
Definition expansion_window (r : IndexedFastaReader) (range : Range)
  : option Range :=
  match Contig r (reference_name range) with
  | Value c =>
      let contig_n_bases := n_bases c in
      let w := MakeRange (reference_name range) (start range)
                 (Z.min (int64_wrap (start range + cache_size_bases_ r))
                        contig_n_bases) in
      if IsValidInterval r w then Some w else None
  | _ => None
  end.

(** Lines 145-162: fetch [range_to_fetch], upper-case, and in cached mode
    install the chunk and cut the answer out of it. *)
Definition fetch_and_store (r : IndexedFastaReader) (fa : faidx_t)
    (range range_to_fetch : Range)
  : Result string * IndexedFastaReader * list FetchCall :=
  let call := MakeFetchCall (reference_name range_to_fetch)
                (start range_to_fetch) (end_ range_to_fetch - 1) in
  let '(bases, len) :=
    faidx_fetch_seq fa (fc_name call) (fc_beg call) (fc_end call) in
  if len <=? 0 then (Failure InvalidArgument, r, [call])
  else
    let result := AsciiStrToUpper bases in
    if use_cache r range then
      let r' := set_cache r result range_to_fetch in
      match substr (small_read_cache_ r') 0 (end_ range - start range) with
      | Some s => (Value s, r', [call])
      | None => (Die, r', [call])
      end
    else (Value result, r, [call]).

(** [IndexedFastaReader::GetBases] (lines 100-163).  The differences
    [end - start] and [start - cached_range_->start()] are taken on an
    interval that passed [IsValidInterval], resp. is contained in the
    cached one, so only the sum of line 131 can leave the int64 range. *)
Definition GetBases (r : IndexedFastaReader) (range : Range)
  : Result string * IndexedFastaReader * list FetchCall :=
  match faidx_ r with
  | None => (Failure FailedPrecondition, r, [])
  | Some fa =>
      if negb (IsValidInterval r range) then (Failure InvalidArgument, r, [])
      else if start range =? end_ range then (Value "", r, [])
      else if use_cache r range then
        match cache_lookup r range with
        | Some w =>
            match substr (small_read_cache_ r) (start range - start w)
                    (end_ range - start range) with
            | Some s => (Value s, r, [])
            | None => (Die, r, [])
            end
        | None =>
            match expansion_window r range with
            | Some range_to_fetch => fetch_and_store r fa range range_to_fetch
            | None => (Die, r, [])
            end
        end
      else fetch_and_store r fa range range
  end.

(** [IndexedFastaReader::Close] (lines 171-180). *)
Definition Close (r : IndexedFastaReader)
  : Result unit * IndexedFastaReader :=
  match faidx_ r with
  | None => (Failure FailedPrecondition, r)
  | Some _ => (Value tt, set_faidx r None)
  end.

(** ** Whole-catalog iteration *)

(** [GenomeReferenceRecord], a [std::pair<string, string>]. *)
Definition GenomeReferenceRecord : Type := (string * string)%type.

(** [IndexedFastaReaderIterable]: the position [pos_] and, from its base
    class, whether the reader it was made from is still attached. *)
Record IndexedFastaReaderIterable : Type := MakeIterable {
  reader_attached : bool;
  pos_ : nat
}.

(** Modelled from the spec: [CheckIsAlive] belongs to the iterable base
    class of nucleus/io/reader_base.h, which is not among the sources.  An
    operation on a reader that is gone is the spec's FailedPrecondition.
    [None] is [Status::OK()]. *)
Definition CheckIsAlive (it : IndexedFastaReaderIterable) : option Code :=
  if reader_attached it then None else Some FailedPrecondition.

(** [IndexedFastaReader::Iterate] (lines 165-169). *)
Definition Iterate (r : IndexedFastaReader) : IndexedFastaReaderIterable :=
  MakeIterable true 0.

(** [IndexedFastaReaderIterable::Next] (lines 182-197), [out] being the
    record the caller passes in.  [contigs_.at(pos_)] cannot throw behind
    the test of line 186; [ValueOrDie] terminates the process on every
    non-OK [GetBases]. *)
Definition Next (it : IndexedFastaReaderIterable) (r : IndexedFastaReader)
    (out : GenomeReferenceRecord)
  : Result bool * GenomeReferenceRecord * IndexedFastaReaderIterable
    * IndexedFastaReader * list FetchCall :=
  match CheckIsAlive it with
  | Some c => (Failure c, out, it, r, [])
  | None =>
      if (List.length (contigs_ r) <=? pos_ it)%nat
      then (Value false, out, it, r, [])
      else
        match nth_error (contigs_ r) (pos_ it) with
        | None => (Die, out, it, r, [])
        | Some contig =>
            let reference_name := name contig in
            match GetBases r (MakeRange reference_name 0 (n_bases contig)) with
            | (Value bases, r', calls) =>
                (Value true, (reference_name, bases),
                 MakeIterable (reader_attached it) (S (pos_ it)), r', calls)
            | (_, r', calls) =>
                (Die, (reference_name, snd out), it, r', calls)
            end
        end
  end.

(** A client that calls [Next] until it stops answering [true], at most
    [fuel] times: the records yielded, the answer that ended the loop, the
    reader left behind and the store calls made.  [None] when [fuel] calls
    were not enough. *)
Fixpoint drain (fuel : nat) (it : IndexedFastaReaderIterable)
    (r : IndexedFastaReader)
  : option (list GenomeReferenceRecord * Result bool
            * IndexedFastaReader * list FetchCall) :=
  match fuel with
  | O => None
  | S fuel' =>
      match Next it r ("", "") with
      | (Value true, out, it', r', calls) =>
          match drain fuel' it' r' with
          | Some (outs, fin, r'', calls') =>
              Some (out :: outs, fin, r'', (calls ++ calls')%list)
          | None => None
          end
      | (res, _, _, r', calls) => Some ([], res, r', calls)
      end
  end.

(** What the spec promises of the iteration: [GetBases(name, 0, length)]
    issued for every catalog entry in turn, each on the reader the previous
    call left. *)
Fixpoint full_sequences (r : IndexedFastaReader) (cs : list ContigInfo)
  : list (string * Result string) :=
  match cs with
  | [] => []
  | c :: cs' =>
      let '(v, r', _) := GetBases r (MakeRange (name c) 0 (n_bases c)) in
      (name c, v) :: full_sequences r' cs'
  end.

(** ** Sequences of calls *)

(** [GetBases] over a list of ranges, on one reader: the answers, the reader
    at the end, and all store calls in order. *)
Fixpoint GetBases_all (r : IndexedFastaReader) (ranges : list Range)
  : list (Result string) * IndexedFastaReader * list FetchCall :=
  match ranges with
  | [] => ([], r, [])
  | range :: rest =>
      let '(v, r', calls) := GetBases r range in
      let '(vs, r'', calls') := GetBases_all r' rest in
      (v :: vs, r'', (calls ++ calls')%list)
  end.

(** The two mutating operations of the public interface. *)
Inductive Op : Type :=
| OpGetBases (range : Range)
| OpClose.

Definition run_op (r : IndexedFastaReader) (op : Op) : IndexedFastaReader :=
  match op with
  | OpGetBases range => snd (fst (GetBases r range))
  | OpClose => snd (Close r)
  end.

Definition run_ops (r : IndexedFastaReader) (ops : list Op)
  : IndexedFastaReader :=
  fold_left run_op ops r.

(** Readers that a sequence of [GetBases] calls leads to from [r0]. *)
Inductive reachable (r0 : IndexedFastaReader) : IndexedFastaReader -> Prop :=
| reach_refl : reachable r0 r0
| reach_step r range :
    reachable r0 r -> reachable r0 (snd (fst (GetBases r range))).

(** ** Contracts and invariants *)

(** The catalog as [ExtractContigsFromFai] builds it: every length is the
    non-negative [int] that [faidx_seq_len] returned; the cache size is the
    [int] given to the constructor. *)
Definition ints_ok (r : IndexedFastaReader) : Prop :=
  cache_size_bases_ r <= INT_MAX
  /\ Forall (fun c => 0 <= n_bases c <= INT_MAX) (contigs_ r).

(** The store answers every in-bounds fetch in full: [len] is the number of
    bases asked for and the C string has that length. *)
Definition store_exact (r : IndexedFastaReader) (fa : faidx_t) : Prop :=
  forall nm c s e,
    Contig r nm = Value c -> 0 <= s <= e -> e < n_bases c ->
    snd (faidx_fetch_seq fa nm s e) = e - s + 1
    /\ Z.of_nat (String.length (fst (faidx_fetch_seq fa nm s e))) = e - s + 1.

(** The store serves fixed contents: contig [nm] is the string
    [content nm], and an in-bounds fetch returns the slice asked for. *)
Definition store_serves (r : IndexedFastaReader) (fa : faidx_t)
    (content : string -> string) : Prop :=
  forall nm c,
    Contig r nm = Value c ->
    Z.of_nat (String.length (content nm)) = n_bases c
    /\ forall s e, 0 <= s <= e -> e < n_bases c ->
         faidx_fetch_seq fa nm s e
         = (substring (Z.to_nat s) (Z.to_nat (e - s + 1)) (content nm),
            e - s + 1).

(** The spec's CacheEntry invariant: the window is a valid interval,
    [bases] has the window's length and is upper-cased. *)
Definition cache_ok (r : IndexedFastaReader) : Prop :=
  match cached_range_ r with
  | None => True
  | Some w =>
      IsValidInterval r w = true
      /\ Z.of_nat (String.length (small_read_cache_ r)) = end_ w - start w
      /\ all_upper (small_read_cache_ r) = true
  end.

(** The cached bases are the upper-cased slice of the store's contents
    under the cached window. *)
Definition cache_coherent (r : IndexedFastaReader)
    (content : string -> string) : Prop :=
  match cached_range_ r with
  | None => True
  | Some w =>
      IsValidInterval r w = true
      /\ small_read_cache_ r
         = AsciiStrToUpper
             (substring (Z.to_nat (start w)) (Z.to_nat (end_ w - start w))
                        (content (reference_name w)))
  end.

(** ** An in-memory store for the examples *)

Module MemFasta.

Fixpoint lookup (seqs : list (string * string)) (nm : string)
  : option string :=
  match seqs with
  | [] => None
  | (n, s) :: rest => if String.eqb n nm then Some s else lookup rest nm
  end.

(** A [faidx_t] over named sequences held in memory: an unknown name gives
    [len = -2], otherwise the inclusive region [[b, e]] is clipped to the
    sequence and its bases are returned with their count. *)
Definition faidx (seqs : list (string * string)) : faidx_t :=
  MakeFaidx
    (Z.of_nat (List.length seqs))
    (fun i => if i <? 0 then None
              else option_map fst (nth_error seqs (Z.to_nat i)))
    (fun nm => match lookup seqs nm with
               | Some s => Z.of_nat (String.length s)
               | None => -1
               end)
    (fun nm b e =>
       match lookup seqs nm with
       | None => ("", -2)
       | Some s =>
           let size := Z.of_nat (String.length s) in
           let b' := Z.max 0 (Z.min b size) in
           let e' := Z.max (b' - 1) (Z.min e (size - 1)) in
           (substring (Z.to_nat b') (Z.to_nat (e' - b' + 1)) s,
            e' - b' + 1)
       end).

(** A store whose every fetch fails with a general error. *)
Definition broken : faidx_t :=
  MakeFaidx 1 (fun _ => Some "chr1") (fun _ => 8) (fun _ _ _ => ("", -1)).

Definition chr1 : ContigInfo := MakeContigInfo "chr1" "" 8 0.
Definition chr2 : ContigInfo := MakeContigInfo "chr2" "" 4 1.

Definition seqs : list (string * string) :=
  [("chr1", "acgtNNga"); ("chr2", "ttAC")].

Definition content (nm : string) : string :=
  match lookup seqs nm with Some s => s | None => "" end.

(** An open reader over [seqs] with a cache of [cache] bases, as the
    constructor leaves it. *)
Definition reader (cache : Z) : IndexedFastaReader :=
  MakeReader "mem.fa" (Some (faidx seqs)) [chr1; chr2] cache "" None.

End MemFasta.

(** ** Readers used in the examples *)

(** The reader after [GetBases(chr1, 0, 2)] with a cache of four bases: its
    slot holds the window [[0, 4)] of chr1. *)
Definition reader_holding_chr1 : IndexedFastaReader :=
  snd (fst (GetBases (MemFasta.reader 4) (MakeRange "chr1" 0 2))).

(** A reader whose slot holds a chunk of another contig. *)
Definition reader_holding_chr2 : IndexedFastaReader :=
  snd (fst (GetBases (MemFasta.reader 4) (MakeRange "chr2" 1 3))).

(** A reader over the broken store that still holds the chunk of an
    earlier, successful read. *)
Definition reader_on_broken_store : IndexedFastaReader :=
  MakeReader "mem.fa" (Some MemFasta.broken) [MemFasta.chr1] 4
             "ACGT" (Some (MakeRange "chr1" 0 4)).

(** ** Slices of the contents, and the containment law as the spec has it *)

(** The bases of [range] in the store's contents, upper-cased. *)
Definition slice (content : string -> string) (range : Range) : string :=
  AsciiStrToUpper
    (substring (Z.to_nat (start range))
               (Z.to_nat (end_ range - start range))
               (content (reference_name range))).

(** The law as the spec words it, for one first call [GetBases(nm, a, b)]
    on [r] and one later call [GetBases(nm, a', b')]. *)
Definition containment_law_as_stated (r : IndexedFastaReader) (nm : string)
    (a b a' b' : Z) : Prop :=
  forall fa c s r1 calls,
    faidx_ r = Some fa ->
    0 < cache_size_bases_ r ->
    Contig r nm = Value c ->
    GetBases r (MakeRange nm a b) = (Value s, r1, calls) ->
    a < b -> b - a <= cache_size_bases_ r ->
    IsValidInterval r1 (MakeRange nm a' b') = true ->
    a <= a' -> b' <= Z.min (a + cache_size_bases_ r) (n_bases c) ->
    snd (GetBases r1 (MakeRange nm a' b')) = [].

(** ** Opening and destroying the reader *)

(** htslib's [fai_load3_x(fn, fnfai, fngzi, flags)], an external
    collaborator: the loaded index, or [None] for the null pointer. *)
Definition fai_loader : Type := string -> string -> string -> Z -> option faidx_t.

(** [IndexedFastaReader::FromFile] (lines 72-83). *)
Definition FromFile (fai_load3_x : fai_loader) (fasta_path fai_path : string)
    (cache_size_bases : Z) : Result IndexedFastaReader :=
  let gzi := (fasta_path ++ ".gzi")%string in
  match fai_load3_x fasta_path fai_path gzi 0 with
  | None => Failure NotFound
  | Some faidx => new_IndexedFastaReader fasta_path faidx cache_size_bases
  end.

(** [IndexedFastaReader::~IndexedFastaReader] (lines 94-98): [TF_CHECK_OK]
    terminates the process on a non-OK [Close]. *)
Definition IndexedFastaReader_destructor (r : IndexedFastaReader)
  : Result unit * IndexedFastaReader :=
  match faidx_ r with
  | Some _ =>
      match Close r with
      | (Value _, r') => (Value tt, r')
      | (_, r') => (Die, r')
      end
  | None => (Value tt, r)
  end.

(** ** A forward scan *)

(** The requests of a client that reads contig [nm] in consecutive tiles of
    [k] bases: tiles number [first], [first + 1], ..., [count] of them,
    tile [i] being [[i * k, (i + 1) * k)]. *)
Definition scan_ranges (nm : string) (k : Z) (first count : nat)
  : list Range :=
  map (fun i => MakeRange nm (Z.of_nat i * k) (Z.of_nat (S i) * k))
      (seq first count).

(** ** The VCF writer

    [nucleus/io/vcf_writer.cc]: the open mode chosen from the file name, the
    header lines built from a [VcfHeader], and the writer's life cycle.
    htslib's header object is represented by the calls made on it. *)

Module VcfWriter.

(** The two [tensorflow::errors] codes of the writer. *)
Inductive Code : Type := Unknown | FailedPrecondition.

(** What a call hands back: a value, a non-OK status, or no return because
    the process was terminated ([CHECK], [TF_CHECK_OK]). *)
Inductive Outcome (A : Type) : Type :=
| Returns (a : A)
| Fails (c : Code)
| Terminates.
Arguments Returns {A} a.
Arguments Fails {A} c.
Arguments Terminates {A}.

(** The double-quote character of the C literals. *)
Definition dquote : string := String "034"%char EmptyString.

Definition kBCFOpenModeCompressed : string := "wb".
Definition kBCFOpenModeUncompressed : string := "wbu".
Definition kOpenModeCompressed : string := "wz".
Definition kOpenModeUncompressed : string := "w".

Definition kFilterHeaderFmt : string :=
  "##FILTER=<ID=$0,Description=" ++ dquote ++ "$1" ++ dquote ++ ">".
Definition kInfoHeaderFmt : string :=
  "##INFO=<ID=$0,Number=$1,Type=$2,Description=" ++ dquote ++ "$3"
  ++ dquote ++ "$4>".
Definition kFormatHeaderFmt : string :=
  "##FORMAT=<ID=$0,Number=$1,Type=$2,Description=" ++ dquote ++ "$3"
  ++ dquote ++ ">".
Definition kContigHeaderFmt : string := "##contig=<ID=$0$1>".
Definition kStructuredExtraHeaderFmt : string := "##$0=<$1>".
Definition kExtraHeaderFmt : string := "##$0=$1".

(** [std::string::c_str()] read as a C string: the characters before the
    first NUL. *)
Fixpoint c_str (s : string) : string :=
  match s with
  | EmptyString => EmptyString
  | String c s' => if Ascii.eqb c zero then EmptyString
                   else String c (c_str s')
  end.

(** [std::string::pop_back()] on a non-empty string. *)
Fixpoint pop_back (s : string) : string :=
  match s with
  | EmptyString => EmptyString
  | String c EmptyString => EmptyString
  | String c s' => String c (pop_back s')
  end.

(** [absl::StrCat] of an int64: its decimal numeral. *)
Definition int64_to_string (z : Z) : string :=
  NilZero.string_of_int (Z.to_int z).

Definition is_digit (c : ascii) : bool :=
  let n := N_of_ascii c in (48 <=? n)%N && (n <=? 57)%N.

(** [absl::Substitute(format, args...)]: [$N] is replaced by argument [N],
    [$$] by a dollar sign, the arguments themselves are copied and not
    scanned.  A [$] at the end or before another character, or an index
    without an argument, makes the format invalid: [None]. *)
Fixpoint Substitute (format : string) (args : list string) : option string :=
  match format with
  | EmptyString => Some EmptyString
  | String c rest =>
      if Ascii.eqb c "$" then
        match rest with
        | EmptyString => None
        | String d rest' =>
            if is_digit d then
              match nth_error args (N.to_nat (N_of_ascii d - 48)) with
              | Some a => option_map (append a) (Substitute rest' args)
              | None => None
              end
            else if Ascii.eqb d "$" then
              option_map (String "$") (Substitute rest' args)
            else None
        end
      else option_map (String c) (Substitute rest args)
  end.

(** The string a caller of [absl::Substitute] holds afterwards: nothing is
    substituted into an invalid format. *)
Definition Substituted (format : string) (args : list string) : string :=
  match Substitute format args with
  | Some s => s
  | None => EmptyString
  end.

(** Modelled from the spec: [EndsWith] lives in nucleus/util/utils.cc, which
    is not among the sources, and the spec leaves the writer out; it is
    taken as the suffix test its name and its three uses here say. *)
Definition EndsWith (s t : string) : bool :=
  (String.length t <=? String.length s)%nat
  && String.eqb (substring (String.length s - String.length t)
                           (String.length t) s) t.

(** [VcfWriter::GetOpenMode] (lines 278-287). *)
Definition GetOpenMode (file_path : string) : string :=
  if EndsWith file_path ".bcf" then kBCFOpenModeUncompressed
  else if EndsWith file_path ".bcf.gz" then kBCFOpenModeCompressed
  else if EndsWith file_path ".gz" then kOpenModeCompressed
  else kOpenModeUncompressed.

(** The last character, for telling suffixes apart. *)
Fixpoint last_char (s : string) : option ascii :=
  match s with
  | EmptyString => None
  | String c EmptyString => Some c
  | String c s' => last_char s'
  end.

(** *** The header messages *)

Record VcfFilterInfo : Type := MakeFilter {
  filter_id : string;
  filter_description : string
}.

Record VcfInfo : Type := MakeInfo {
  info_id : string;
  info_number : string;
  info_type : string;
  info_description : string;
  info_source : string;
  info_version : string
}.

Record VcfFormatInfo : Type := MakeFormat {
  format_id : string;
  format_number : string;
  format_type : string;
  format_description : string
}.

Record VcfExtra : Type := MakeExtra {
  extra_key : string;
  extra_value : string
}.

Record VcfStructuredExtra : Type := MakeStructuredExtra {
  sextra_key : string;
  sextra_fields : list VcfExtra
}.

(** A [ContigInfo] with the entries of its [extra] map in the order the
    map's iterator yields them. *)
Record HeaderContig : Type := MakeHeaderContig {
  contig_info : ContigInfo;
  contig_extra : list (string * string)
}.

Record VcfHeader : Type := MakeVcfHeader {
  filters : list VcfFilterInfo;
  infos : list VcfInfo;
  formats : list VcfFormatInfo;
  structured_extras : list VcfStructuredExtra;
  extras : list VcfExtra;
  contigs : list HeaderContig;
  sample_names : list string
}.

Record VcfWriterOptions : Type := MakeOptions {
  excluded_info_fields : list string;
  excluded_format_fields : list string;
  retrieve_gl_and_pl_from_info_map : bool;
  round_qual_values : bool
}.

(** *** htslib *)

(** One call on a [bcf_hdr_t]: [bcf_hdr_append(header, line)] or
    [bcf_hdr_add_sample(header, name)], [None] being the null name that
    ends the sample list. *)
Inductive HeaderCall : Type :=
| hdr_append (line : string)
| hdr_add_sample (sample : option string).

(** A [bcf_hdr_t]: the calls made on it since [bcf_hdr_init("w")]. *)
Definition bcf_hdr_t : Type := list HeaderCall.

(** An open [htsFile], an external collaborator, through what the writer
    asks of it: the return codes of [hts_close] and of [bcf_hdr_write]. *)
Record htsFile : Type := MakeHtsFile {
  hts_close : Z;
  bcf_hdr_write : bcf_hdr_t -> Z
}.

(** [bcf_hdr_append(header, str.c_str())]. *)
Definition bcf_hdr_append (header : bcf_hdr_t) (str : string) : bcf_hdr_t :=
  (header ++ [hdr_append (c_str str)])%list.

Definition bcf_hdr_add_sample (header : bcf_hdr_t) (sample : option string)
  : bcf_hdr_t :=
  (header ++ [hdr_add_sample (option_map c_str sample)])%list.

(** *** Header lines (lines 65-141) *)

Definition AddFilterToHeader (filter : VcfFilterInfo) (header : bcf_hdr_t)
  : bcf_hdr_t :=
  let filterStr :=
    Substituted kFilterHeaderFmt
      [c_str (filter_id filter); c_str (filter_description filter)] in
  bcf_hdr_append header filterStr.

Definition AddInfoToHeader (info : VcfInfo) (header : bcf_hdr_t)
  : bcf_hdr_t :=
  let extra := "" in
  let extra :=
    if negb (String.eqb (info_source info) "")
    then ",Source=" ++ dquote ++ info_source info ++ dquote
    else extra in
  let extra :=
    if negb (String.eqb (info_version info) "")
    then extra ++ ",Version=" ++ dquote ++ info_version info ++ dquote
    else extra in
  let infoStr :=
    Substituted kInfoHeaderFmt
      [c_str (info_id info); c_str (info_number info);
       c_str (info_type info); c_str (info_description info);
       c_str extra] in
  bcf_hdr_append header infoStr.

Definition AddFormatToHeader (format : VcfFormatInfo) (header : bcf_hdr_t)
  : bcf_hdr_t :=
  let formatStr :=
    Substituted kFormatHeaderFmt
      [c_str (format_id format); c_str (format_number format);
       c_str (format_type format); c_str (format_description format)] in
  bcf_hdr_append header formatStr.

Definition AddStructuredExtraToHeader (sExtra : VcfStructuredExtra)
    (header : bcf_hdr_t) : bcf_hdr_t :=
  let fieldStr :=
    fold_left
      (fun fieldStr kv =>
         fieldStr ++ extra_key kv ++ "=" ++ dquote ++ extra_value kv
         ++ dquote ++ ",")
      (sextra_fields sExtra) "" in
  let fieldStr :=
    if negb (String.eqb fieldStr "") then pop_back fieldStr else fieldStr in
  let result :=
    Substituted kStructuredExtraHeaderFmt
      [c_str (sextra_key sExtra); c_str fieldStr] in
  bcf_hdr_append header result.

Definition AddExtraToHeader (extra : VcfExtra) (header : bcf_hdr_t)
  : bcf_hdr_t :=
  let result :=
    Substituted kExtraHeaderFmt
      [c_str (extra_key extra); c_str (extra_value extra)] in
  bcf_hdr_append header result.

Definition AddContigToHeader (contig : HeaderContig) (header : bcf_hdr_t)
  : bcf_hdr_t :=
  let info := contig_info contig in
  let extra :=
    if negb (n_bases info =? 0)
    then ",length=" ++ int64_to_string (n_bases info)
    else "" in
  let extra :=
    if negb (String.eqb (description info) "")
    then extra ++ ",description=" ++ dquote ++ description info ++ dquote
    else extra in
  let extra :=
    fold_left
      (fun extra kv =>
         extra ++ "," ++ fst kv ++ "=" ++ dquote ++ snd kv ++ dquote)
      (contig_extra contig) extra in
  let contigStr :=
    Substituted kContigHeaderFmt [c_str (name info); c_str extra] in
  bcf_hdr_append header contigStr.

(** *** The writer *)

(** The members of [VcfWriter]; [record_converter_], built from the options
    by a class outside these sources, serves [Write] only. *)
Record VcfWriter : Type := MakeWriter {
  fp_ : option htsFile;
  options_ : VcfWriterOptions;
  vcf_header_ : VcfHeader;
  header_ : option bcf_hdr_t
}.

(** The header the constructor builds (lines 197-226). *)
Definition build_header (vcf_header : VcfHeader) : bcf_hdr_t :=
  let header_ : bcf_hdr_t := [] in
  let header_ :=
    fold_left
      (fun h filter =>
         if negb (String.eqb (filter_id filter) "PASS")
         then AddFilterToHeader filter h else h)
      (filters vcf_header) header_ in
  let header_ :=
    fold_left (fun h info => AddInfoToHeader info h)
              (infos vcf_header) header_ in
  let header_ :=
    fold_left (fun h format => AddFormatToHeader format h)
              (formats vcf_header) header_ in
  let header_ :=
    fold_left (fun h sExtra => AddStructuredExtraToHeader sExtra h)
              (structured_extras vcf_header) header_ in
  let header_ :=
    fold_left (fun h extra => AddExtraToHeader extra h)
              (extras vcf_header) header_ in
  let header_ :=
    fold_left (fun h contig => AddContigToHeader contig h)
              (contigs vcf_header) header_ in
  let header_ :=
    fold_left (fun h sampleName => bcf_hdr_add_sample h (Some sampleName))
              (sample_names vcf_header) header_ in
  bcf_hdr_add_sample header_ None.

(** The constructor (lines 180-227); [CHECK(fp != nullptr)]. *)
Definition new_VcfWriter (header : VcfHeader) (options : VcfWriterOptions)
    (fp : option htsFile) : Outcome VcfWriter :=
  match fp with
  | None => Terminates
  | Some _ => Returns (MakeWriter fp options header
                                  (Some (build_header header)))
  end.

(** [VcfWriter::WriteHeader] (lines 229-234), called by [ToFile] on the
    writer just constructed; htslib dereferences both pointers. *)
Definition WriteHeader (w : VcfWriter) : Outcome unit :=
  match fp_ w, header_ w with
  | Some fp, Some header =>
      if bcf_hdr_write fp header <? 0 then Fails Unknown else Returns tt
  | _, _ => Terminates
  end.

(** [VcfWriter::Close] (lines 265-275). *)
Definition Close (w : VcfWriter) : Outcome unit * VcfWriter :=
  match fp_ w with
  | None => (Fails FailedPrecondition, w)
  | Some fp =>
      if hts_close fp <? 0 then (Fails Unknown, w)
      else (Returns tt, MakeWriter None (options_ w) (vcf_header_ w) None)
  end.

(** [VcfWriter::~VcfWriter] (lines 236-242). *)
Definition destructor (w : VcfWriter) : Outcome unit * VcfWriter :=
  match fp_ w with
  | Some _ =>
      match Close w with
      | (Returns _, w') => (Returns tt, w')
      | (_, w') => (Terminates, w')
      end
  | None => (Returns tt, w)
  end.

(** htslib's [hts_open_x(path, mode)]: the opened file or null. *)
Definition hts_opener : Type := string -> string -> option htsFile.

(** [VcfWriter::ToFile] (lines 165-178).  When [WriteHeader] fails the
    status is returned past the [unique_ptr], whose destructor runs. *)
Definition ToFile (hts_open_x : hts_opener) (variants_path : string)
    (header : VcfHeader) (options : VcfWriterOptions) : Outcome VcfWriter :=
  let open_mode := GetOpenMode variants_path in
  match hts_open_x variants_path open_mode with
  | None => Fails Unknown
  | Some fp =>
      match new_VcfWriter header options (Some fp) with
      | Returns writer =>
          match WriteHeader writer with
          | Returns _ => Returns writer
          | Fails c =>
              match destructor writer with
              | (Returns _, _) => Fails c
              | _ => Terminates
              end
          | Terminates => Terminates
          end
      | Fails c => Fails c
      | Terminates => Terminates
      end
  end.

End VcfWriter.

(** A header call that appends a line starting with [##]. *)
Definition meta_line_call (call : VcfWriter.HeaderCall) : Prop :=
  exists rest, call = VcfWriter.hdr_append ("##" ++ rest).

(** The same test on a line, as a computation. *)
Definition starts_meta (s : string) : bool :=
  match s with
  | String a (String b _) => Ascii.eqb a "#" && Ascii.eqb b "#"
  | _ => false
  end.

(** ** String lemmas *)

Lemma length_substring (s : string) (n m : nat) :
  String.length (substring n m s) = Nat.min m (String.length s - n).
Proof.
  revert n m; induction s as [|c s IH]; intros n m.
  - destruct n, m; reflexivity.
  - destruct n as [|n].
    + destruct m as [|m]; simpl; [reflexivity|].
      rewrite IH, Nat.sub_0_r. reflexivity.
    + simpl. apply IH.
Qed.

Lemma length_AsciiStrToUpper (s : string) :
  String.length (AsciiStrToUpper s) = String.length s.
Proof. induction s; simpl; congruence. Qed.

Lemma ascii_toupper_not_lower (c : ascii) :
  is_lower (ascii_toupper c) = false.
Proof.
  destruct c as [[] [] [] [] [] [] [] []]; reflexivity.
Qed.

Lemma all_upper_AsciiStrToUpper (s : string) :
  all_upper (AsciiStrToUpper s) = true.
Proof.
  induction s as [|c s IH]; simpl; [reflexivity|].
  rewrite ascii_toupper_not_lower, IH. reflexivity.
Qed.

Lemma all_upper_substring (s : string) (n m : nat) :
  all_upper s = true -> all_upper (substring n m s) = true.
Proof.
  revert n m; induction s as [|c s IH]; intros n m H.
  - destruct n, m; reflexivity.
  - simpl in H. apply andb_true_iff in H as [Hc Hs].
    destruct n as [|n]; simpl.
    + destruct m as [|m]; simpl; [reflexivity|].
      rewrite Hc. simpl. apply IH, Hs.
    + apply IH, Hs.
Qed.

Lemma AsciiStrToUpper_substring (s : string) (n m : nat) :
  AsciiStrToUpper (substring n m s) = substring n m (AsciiStrToUpper s).
Proof.
  revert n m; induction s as [|c s IH]; intros n m.
  - destruct n, m; reflexivity.
  - destruct n as [|n]; simpl.
    + destruct m as [|m]; simpl; [reflexivity|]. now rewrite IH.
    + apply IH.
Qed.

(** A slice of a slice is a slice of the whole. *)
Lemma substring_substring (s : string) (a k b m : nat) :
  (b + m <= k)%nat ->
  substring b m (substring a k s) = substring (a + b) m s.
Proof.
  revert a k b m; induction s as [|c s IH]; intros a k b m H.
  - destruct a, k, b, m; reflexivity.
  - destruct a as [|a]; simpl.
    + destruct k as [|k].
      * assert (b = 0%nat) by lia. assert (m = 0%nat) by lia. subst.
        reflexivity.
      * destruct b as [|b]; simpl.
        -- destruct m as [|m]; [reflexivity|].
           f_equal. rewrite (IH 0%nat k 0%nat m) by lia.
           reflexivity.
        -- rewrite (IH 0%nat k b m) by lia. reflexivity.
    + apply IH, H.
Qed.

Lemma substr_Some (s : string) (pos n : Z) :
  0 <= pos -> 0 <= n -> pos + n <= Z.of_nat (String.length s) ->
  substr s pos n = Some (substring (Z.to_nat pos) (Z.to_nat n) s).
Proof.
  intros Hp Hn Hle. unfold substr.
  destruct (Z.ltb_spec (Z.of_nat (String.length s)) pos); [lia|].
  rewrite Z.min_l by lia. reflexivity.
Qed.

Lemma int64_wrap_small (z : Z) :
  - 2 ^ 63 <= z <= INT64_MAX -> int64_wrap z = z.
Proof.
  unfold int64_wrap, INT64_MAX. intros H.
  rewrite Z.mod_small by lia. lia.
Qed.

(** ** The catalog and interval validity *)

Lemma Contig_In (r : IndexedFastaReader) (nm : string) (c : ContigInfo) :
  Contig r nm = Value c -> In c (contigs_ r) /\ name c = nm.
Proof.
  unfold Contig. destruct (find _ _) as [c'|] eqn:F; [|discriminate].
  intros [= <-]. apply find_some in F as [Hin Heq].
  split; [exact Hin | now apply String.eqb_eq].
Qed.

Lemma IsValidInterval_inv (r : IndexedFastaReader) (range : Range) :
  IsValidInterval r range = true ->
  exists c, Contig r (reference_name range) = Value c
            /\ 0 <= start range <= end_ range
            /\ end_ range <= n_bases c.
Proof.
  unfold IsValidInterval.
  destruct (Contig r (reference_name range)) as [c| |]; try discriminate.
  intros H. exists c.
  apply andb_true_iff in H as [H H3]. apply andb_true_iff in H as [H1 H2].
  split; [reflexivity|]. lia.
Qed.

Lemma IsValidInterval_intro (r : IndexedFastaReader) (range : Range)
    (c : ContigInfo) :
  Contig r (reference_name range) = Value c ->
  0 <= start range <= end_ range -> end_ range <= n_bases c ->
  IsValidInterval r range = true.
Proof.
  intros HC H1 H2. unfold IsValidInterval. rewrite HC.
  repeat (apply andb_true_iff; split); lia.
Qed.

Lemma ints_ok_contig (r : IndexedFastaReader) (nm : string)
    (c : ContigInfo) :
  ints_ok r -> Contig r nm = Value c -> 0 <= n_bases c <= INT_MAX.
Proof.
  intros [_ HF] HC. apply Contig_In in HC as [Hin _].
  rewrite Forall_forall in HF. exact (HF c Hin).
Qed.

(** Validity depends on the catalog only. *)
Lemma IsValidInterval_contigs (r r' : IndexedFastaReader) (range : Range) :
  contigs_ r' = contigs_ r ->
  IsValidInterval r' range = IsValidInterval r range.
Proof.
  intros H. unfold IsValidInterval, Contig. now rewrite H.
Qed.

Lemma Contig_contigs (r r' : IndexedFastaReader) (nm : string) :
  contigs_ r' = contigs_ r -> Contig r' nm = Contig r nm.
Proof. intros H. unfold Contig. now rewrite H. Qed.

Lemma RangeContains_inv (w range : Range) :
  RangeContains w range = true ->
  reference_name range = reference_name w
  /\ start w <= start range /\ end_ range <= end_ w.
Proof.
  unfold RangeContains. intros H.
  apply andb_true_iff in H as [H H3]. apply andb_true_iff in H as [H1 H2].
  apply String.eqb_eq in H1. repeat split; [assumption|lia|lia].
Qed.

Lemma cache_lookup_Some (r : IndexedFastaReader) (range w : Range) :
  cache_lookup r range = Some w ->
  cached_range_ r = Some w /\ RangeContains w range = true.
Proof.
  unfold cache_lookup. destruct (cached_range_ r) as [w'|]; [|discriminate].
  destruct (RangeContains w' range) eqn:E; [|discriminate].
  intros [= <-]. now split.
Qed.

(** The window of a cached-mode miss, when no sum overflows. *)
Lemma expansion_window_exact (r : IndexedFastaReader) (range : Range)
    (c : ContigInfo) :
  ints_ok r -> 0 <= cache_size_bases_ r ->
  Contig r (reference_name range) = Value c ->
  IsValidInterval r range = true ->
  expansion_window r range
  = Some (MakeRange (reference_name range) (start range)
            (Z.min (start range + cache_size_bases_ r) (n_bases c))).
Proof.
  intros Hints HC0 HC Hv. unfold expansion_window. rewrite HC.
  destruct (IsValidInterval_inv _ _ Hv) as (c' & HC' & Hse & Hen).
  rewrite HC in HC'. injection HC' as <-.
  pose proof (ints_ok_contig _ _ _ Hints HC) as Hn.
  destruct Hints as [Hcs _].
  rewrite int64_wrap_small by (unfold INT_MAX, INT64_MAX in *; lia).
  rewrite (IsValidInterval_intro r _ c); [reflexivity|exact HC|simpl; lia|simpl; lia].
Qed.

(** ** What [GetBases] leaves alone *)

(** Expose the store call inside [fetch_and_store]. *)
Ltac open_fetch :=
  unfold fetch_and_store; cbn [fc_name fc_beg fc_end].

Lemma fetch_and_store_frame (r : IndexedFastaReader) (fa : faidx_t)
    (range w : Range) :
  let r' := snd (fst (fetch_and_store r fa range w)) in
  fasta_path_ r' = fasta_path_ r /\ faidx_ r' = faidx_ r
  /\ contigs_ r' = contigs_ r /\ cache_size_bases_ r' = cache_size_bases_ r.
Proof.
  unfold fetch_and_store.
  destruct (faidx_fetch_seq _ _ _ _) as [bases len].
  destruct (len <=? 0); [simpl; auto|].
  destruct (use_cache r range); [|simpl; auto].
  destruct (substr _ _ _); simpl; auto.
Qed.

Lemma GetBases_frame (r : IndexedFastaReader) (range : Range) :
  let r' := snd (fst (GetBases r range)) in
  fasta_path_ r' = fasta_path_ r /\ faidx_ r' = faidx_ r
  /\ contigs_ r' = contigs_ r /\ cache_size_bases_ r' = cache_size_bases_ r.
Proof.
  unfold GetBases.
  destruct (faidx_ r) as [fa|] eqn:Hfa; [|simpl; auto].
  destruct (negb _); [simpl; auto|].
  destruct (_ =? _); [simpl; auto|].
  destruct (use_cache r range); [|rewrite <- Hfa; apply fetch_and_store_frame].
  destruct (cache_lookup r range).
  - destruct (substr _ _ _); simpl; auto.
  - destruct (expansion_window r range);
      [rewrite <- Hfa; apply fetch_and_store_frame|simpl; auto].
Qed.

(** ** [GetBases], path by path *)

Lemma substring_zero_length (s : string) (n : nat) : substring n 0 s = "".
Proof.
  revert n; induction s as [|c s IH]; intros [|n]; simpl; auto.
Qed.

(** A count past the end copies what is left. *)
Lemma substring_min_length (s : string) (m : nat) :
  substring 0 (Nat.min m (String.length s)) s = substring 0 m s.
Proof.
  revert m; induction s as [|c s IH]; intros [|m]; simpl; auto.
  now rewrite IH.
Qed.

Lemma substr_prefix (s : string) (n : Z) :
  0 <= n -> substr s 0 n = Some (substring 0 (Z.to_nat n) s).
Proof.
  intros Hn. unfold substr.
  destruct (Z.ltb_spec (Z.of_nat (String.length s)) 0); [lia|].
  rewrite Z.sub_0_r. simpl Z.to_nat at 1. f_equal.
  rewrite <- (substring_min_length s (Z.to_nat n)). f_equal. lia.
Qed.

(** The empty shortcut of lines 109-113. *)
Lemma GetBases_shortcut (r : IndexedFastaReader) (fa : faidx_t)
    (range : Range) :
  faidx_ r = Some fa -> IsValidInterval r range = true ->
  start range = end_ range ->
  GetBases r range = (Value "", r, []).
Proof.
  intros Hfa Hv Heq. unfold GetBases. rewrite Hfa, Hv.
  destruct (Z.eqb_spec (start range) (end_ range)); [reflexivity|].
  contradiction.
Qed.

(** Past the closed test, the validity test and the empty shortcut. *)
Lemma GetBases_unfold (r : IndexedFastaReader) (fa : faidx_t)
    (range : Range) :
  faidx_ r = Some fa -> IsValidInterval r range = true ->
  start range <> end_ range ->
  GetBases r range
  = if use_cache r range then
      match cache_lookup r range with
      | Some w =>
          match substr (small_read_cache_ r) (start range - start w)
                  (end_ range - start range) with
          | Some s => (Value s, r, [])
          | None => (Die, r, [])
          end
      | None =>
          match expansion_window r range with
          | Some range_to_fetch => fetch_and_store r fa range range_to_fetch
          | None => (Die, r, [])
          end
      end
    else fetch_and_store r fa range range.
Proof.
  intros Hfa Hv Hne. unfold GetBases. rewrite Hfa, Hv. simpl negb. cbv iota.
  destruct (Z.eqb_spec (start range) (end_ range)); [contradiction|].
  reflexivity.
Qed.

(** The claim's reading of [use_cache] on a non-empty interval. *)
Lemma use_cache_false_iff (r : IndexedFastaReader) (range : Range) :
  start range < end_ range ->
  use_cache r range = false
  <-> cache_size_bases_ r <= 0
      \/ cache_size_bases_ r < end_ range - start range.
Proof.
  intros Hlt. unfold use_cache. rewrite andb_false_iff.
  rewrite Z.ltb_ge, Z.leb_gt. tauto.
Qed.

(** ** Claims on single calls *)

(** C5.  On an open reader a valid interval with [start = end] is answered
    with the empty string at once: no store call is made and the reader,
    its cache slot included, is returned as it was. *)
Theorem GetBases_empty_interval (r : IndexedFastaReader) (fa : faidx_t)
    (range : Range) :
  faidx_ r = Some fa ->
  IsValidInterval r range = true ->
  start range = end_ range ->
  GetBases r range = (Value "", r, []).
Proof.
  intros Hfa Hv Heq. unfold GetBases. rewrite Hfa, Hv. simpl negb. cbv iota.
  apply Z.eqb_eq in Heq. now rewrite Heq.
Qed.

Lemma GetBases_empty_interval_witness :
  GetBases (MemFasta.reader 4) (MakeRange "chr1" 3 3)
  = (Value "", MemFasta.reader 4, []).
Proof.
  apply (GetBases_empty_interval (MemFasta.reader 4)
           (MemFasta.faidx MemFasta.seqs) (MakeRange "chr1" 3 3));
    reflexivity.
Defined.

Lemma fetch_and_store_failed (r : IndexedFastaReader) (fa : faidx_t)
    (range w : Range) (v : Result string) (r' : IndexedFastaReader)
    (calls : list FetchCall) (call : FetchCall) :
  fetch_and_store r fa range w = (v, r', calls) ->
  In call calls ->
  snd (faidx_fetch_seq fa (fc_name call) (fc_beg call) (fc_end call)) <= 0 ->
  v = Failure InvalidArgument /\ r' = r /\ calls = [call].
Proof.
  open_fetch.
  destruct (faidx_fetch_seq fa (reference_name w) (start w) (end_ w - 1))
    as [bases len] eqn:F.
  destruct (Z.leb_spec len 0) as [Hle|Hgt].
  - intros [= <- <- <-] [<-|[]] _. auto.
  - assert (Hcall : forall c, In c [MakeFetchCall (reference_name w)
                                      (start w) (end_ w - 1)] ->
              snd (faidx_fetch_seq fa (fc_name c) (fc_beg c) (fc_end c)) <= 0
              -> False).
    { intros c [<-|[]]. simpl. rewrite F. simpl. lia. }
    destruct (use_cache r range).
    + destruct (substr _ _ _); intros [= <- <- <-] Hin Hlen;
        destruct (Hcall _ Hin Hlen).
    + intros [= <- <- <-] Hin Hlen; destruct (Hcall _ Hin Hlen).
Qed.

(** C6.  Whenever a store fetch made by [GetBases] comes back with a
    non-positive length, the call returns InvalidArgument and hands the
    reader back unchanged: cached window and cached bases are exactly what
    they were, and that fetch was the only store call. *)
Theorem GetBases_failed_fetch_keeps_cache (r : IndexedFastaReader)
    (fa : faidx_t) (range : Range) (v : Result string)
    (r' : IndexedFastaReader) (calls : list FetchCall) (call : FetchCall) :
  faidx_ r = Some fa ->
  GetBases r range = (v, r', calls) ->
  In call calls ->
  snd (faidx_fetch_seq fa (fc_name call) (fc_beg call) (fc_end call)) <= 0 ->
  v = Failure InvalidArgument /\ r' = r /\ calls = [call].
Proof.
  intros Hfa. unfold GetBases. rewrite Hfa.
  destruct (negb _); [intros [= <- <- <-] []|].
  destruct (_ =? _); [intros [= <- <- <-] []|].
  destruct (use_cache r range) eqn:U.
  - destruct (cache_lookup r range).
    + destruct (substr _ _ _); intros [= <- <- <-] [].
    + destruct (expansion_window r range) as [w|].
      * apply fetch_and_store_failed.
      * intros [= <- <- <-] [].
  - apply fetch_and_store_failed.
Qed.

Lemma GetBases_failed_fetch_keeps_cache_witness :
  GetBases reader_on_broken_store (MakeRange "chr1" 5 7)
  = (Failure InvalidArgument, reader_on_broken_store,
     [MakeFetchCall "chr1" 5 7]).
Proof.
  destruct (GetBases_failed_fetch_keeps_cache reader_on_broken_store
              MemFasta.broken (MakeRange "chr1" 5 7)
              (fst (fst (GetBases reader_on_broken_store
                           (MakeRange "chr1" 5 7))))
              (snd (fst (GetBases reader_on_broken_store
                           (MakeRange "chr1" 5 7))))
              (snd (GetBases reader_on_broken_store (MakeRange "chr1" 5 7)))
              (MakeFetchCall "chr1" 5 7))
    as (Hv & Hr & Hc).
  - reflexivity.
  - reflexivity.
  - simpl. left. reflexivity.
  - simpl. lia.
  - reflexivity.
Defined.

(** ** Closing *)

Section Closed.

Variable r : IndexedFastaReader.
Hypothesis Hclosed : faidx_ r = None.

Lemma closed_GetBases (range : Range) :
  GetBases r range = (Failure FailedPrecondition, r, []).
Proof. unfold GetBases. now rewrite Hclosed. Qed.

Lemma closed_Close : Close r = (Failure FailedPrecondition, r).
Proof. unfold Close. now rewrite Hclosed. Qed.

Lemma closed_run_op (op : Op) : run_op r op = r.
Proof.
  destruct op as [range|]; simpl.
  - now rewrite closed_GetBases.
  - now rewrite closed_Close.
Qed.

(** Nothing reopens a closed reader, nor changes it. *)
Lemma closed_run_ops (ops : list Op) : run_ops r ops = r.
Proof.
  unfold run_ops. induction ops as [|op ops IH]; [reflexivity|].
  simpl. now rewrite closed_run_op.
Qed.

End Closed.

(** C7.  [Close] on an open reader succeeds, and the reader it leaves is
    closed for good: after any further operations whatsoever, [GetBases]
    on any range returns FailedPrecondition (without a store call) and
    [Close] returns FailedPrecondition. *)
Theorem Close_is_irreversible (r : IndexedFastaReader) (fa : faidx_t) :
  faidx_ r = Some fa ->
  exists r1,
    Close r = (Value tt, r1)
    /\ forall (ops : list Op) (range : Range),
         let r2 := run_ops r1 ops in
         GetBases r2 range = (Failure FailedPrecondition, r2, [])
         /\ Close r2 = (Failure FailedPrecondition, r2).
Proof.
  intros Hfa. exists (set_faidx r None). split.
  - unfold Close. now rewrite Hfa.
  - intros ops range r2.
    assert (Hr2 : r2 = set_faidx r None)
      by (apply closed_run_ops; reflexivity).
    rewrite Hr2. split; [apply closed_GetBases | apply closed_Close];
      reflexivity.
Qed.

Lemma Close_is_irreversible_witness :
  exists r1,
    Close (MemFasta.reader 4) = (Value tt, r1)
    /\ forall (ops : list Op) (range : Range),
         let r2 := run_ops r1 ops in
         GetBases r2 range = (Failure FailedPrecondition, r2, [])
         /\ Close r2 = (Failure FailedPrecondition, r2).
Proof.
  apply (Close_is_irreversible (MemFasta.reader 4)
           (MemFasta.faidx MemFasta.seqs)).
  reflexivity.
Defined.

(** ** Uncached mode *)

(** C8.  On an open reader, for a valid non-empty interval with caching
    off ([cache_size_bases_ = 0]) or longer than the cache, [use_cache] is
    false and [GetBases] makes exactly one store call, for the requested
    interval itself (inclusive end [end - 1]); it returns the upper-cased
    bases as they are, or InvalidArgument when [len <= 0]; either way the
    reader, cached window and cached bases included, is unchanged. *)
Theorem GetBases_uncached_frame (r : IndexedFastaReader) (fa : faidx_t)
    (range : Range) :
  faidx_ r = Some fa ->
  IsValidInterval r range = true ->
  start range <> end_ range ->
  cache_size_bases_ r = 0
  \/ end_ range - start range > cache_size_bases_ r ->
  let call := MakeFetchCall (reference_name range) (start range)
                (end_ range - 1) in
  let fetched :=
    faidx_fetch_seq fa (reference_name range) (start range)
                    (end_ range - 1) in
  use_cache r range = false
  /\ GetBases r range
     = if snd fetched <=? 0 then (Failure InvalidArgument, r, [call])
       else (Value (AsciiStrToUpper (fst fetched)), r, [call]).
Proof.
  intros Hfa Hv Hne Hoff call fetched.
  destruct (IsValidInterval_inv _ _ Hv) as (c & _ & Hse & _).
  assert (U : use_cache r range = false)
    by (apply use_cache_false_iff; lia).
  split; [exact U|].
  rewrite (GetBases_unfold r fa range Hfa Hv Hne), U.
  open_fetch.
  subst fetched call.
  destruct (faidx_fetch_seq fa (reference_name range) (start range)
              (end_ range - 1)) as [bases len].
  simpl. rewrite U. reflexivity.
Qed.

Lemma GetBases_uncached_frame_witness :
  use_cache (MemFasta.reader 4) (MakeRange "chr1" 1 7) = false
  /\ GetBases (MemFasta.reader 4) (MakeRange "chr1" 1 7)
     = (Value "CGTNNG", MemFasta.reader 4, [MakeFetchCall "chr1" 1 6]).
Proof.
  apply (GetBases_uncached_frame (MemFasta.reader 4)
           (MemFasta.faidx MemFasta.seqs) (MakeRange "chr1" 1 7)).
  - reflexivity.
  - reflexivity.
  - simpl. lia.
  - right. simpl. lia.
Defined.

(** ** Cached mode: the miss *)

Lemma prefix_substring (s : string) (m : nat) :
  prefix (substring 0 m s) s = true.
Proof.
  revert m; induction s as [|c s IH]; intros [|m]; simpl; auto.
  destruct (ascii_dec c c) as [_|N]; [apply IH | now destruct N].
Qed.

(** C3.  On an open reader with [0 < cache_size_bases_], a valid non-empty
    interval no longer than the cache and contained in no cached window
    makes exactly one store call, for the window W = [start, min(start +
    cache_size_bases_, contig length)) (inclusive end [W.end - 1]).  When
    the fetch succeeds ([len > 0]) the upper-cased bases and W become the
    cache entry whatever the slot held before, and the answer is the prefix
    of the installed bases cut at [end - start] characters (of exactly that
    length when the store returned that many). *)
Theorem GetBases_cached_miss (r : IndexedFastaReader) (fa : faidx_t)
    (range : Range) (c : ContigInfo) :
  faidx_ r = Some fa ->
  ints_ok r ->
  IsValidInterval r range = true ->
  Contig r (reference_name range) = Value c ->
  start range <> end_ range ->
  0 < cache_size_bases_ r ->
  end_ range - start range <= cache_size_bases_ r ->
  cache_lookup r range = None ->
  let W := MakeRange (reference_name range) (start range)
             (Z.min (start range + cache_size_bases_ r) (n_bases c)) in
  let call := MakeFetchCall (reference_name W) (start W) (end_ W - 1) in
  let fetched :=
    faidx_fetch_seq fa (reference_name W) (start W) (end_ W - 1) in
  let installed := AsciiStrToUpper (fst fetched) in
  let answer := substring 0 (Z.to_nat (end_ range - start range)) installed in
  GetBases r range
  = (if snd fetched <=? 0 then (Failure InvalidArgument, r, [call])
     else (Value answer, set_cache r installed W, [call]))
  /\ prefix answer installed = true
  /\ (end_ range - start range <= Z.of_nat (String.length installed) ->
      Z.of_nat (String.length answer) = end_ range - start range).
Proof.
  intros Hfa Hints Hv HC Hne Hpos Hfit Hmiss W call fetched installed answer.
  destruct (IsValidInterval_inv _ _ Hv) as (c' & HC' & Hse & Hen).
  assert (U : use_cache r range = true).
  { unfold use_cache. apply andb_true_iff. split; lia. }
  split; [|split].
  - rewrite (GetBases_unfold r fa range Hfa Hv Hne), U, Hmiss.
    rewrite (expansion_window_exact r range c Hints) by (assumption || lia).
    fold W. unfold fetch_and_store. fold call.
    change (faidx_fetch_seq fa (fc_name call) (fc_beg call) (fc_end call))
      with fetched.
    subst installed answer. destruct fetched as [bases len]. simpl fst.
    simpl snd. destruct (len <=? 0); [reflexivity|].
    rewrite U. simpl small_read_cache_.
    rewrite substr_prefix by lia. reflexivity.
  - apply prefix_substring.
  - intros Hlen. subst answer. rewrite length_substring. lia.
Qed.

Lemma GetBases_cached_miss_witness :
  cached_range_ reader_holding_chr2 = Some (MakeRange "chr2" 1 4)
  /\ GetBases reader_holding_chr2 (MakeRange "chr1" 5 7)
     = (Value "NG",
        set_cache reader_holding_chr2 "NGA" (MakeRange "chr1" 5 8),
        [MakeFetchCall "chr1" 5 7]).
Proof.
  split; [reflexivity|].
  apply (GetBases_cached_miss reader_holding_chr2
           (MemFasta.faidx MemFasta.seqs) (MakeRange "chr1" 5 7)
           MemFasta.chr1).
  - reflexivity.
  - split; [vm_compute; discriminate|].
    repeat constructor; vm_compute; discriminate.
  - reflexivity.
  - reflexivity.
  - simpl. lia.
  - reflexivity.
  - simpl. lia.
  - reflexivity.
Defined.

(** ** The cache invariant *)

Lemma use_cache_true (r : IndexedFastaReader) (range : Range) :
  use_cache r range = true ->
  0 < cache_size_bases_ r
  /\ end_ range - start range <= cache_size_bases_ r.
Proof.
  unfold use_cache. intros H. apply andb_true_iff in H as [H1 H2]. lia.
Qed.

(** Under an exact store a fetch of a non-empty in-bounds window succeeds
    with bases of the window's length. *)
Lemma fetch_and_store_exact (r : IndexedFastaReader) (fa : faidx_t)
    (range w : Range) (c : ContigInfo) :
  store_exact r fa ->
  Contig r (reference_name w) = Value c ->
  0 <= start w < end_ w -> end_ w <= n_bases c ->
  exists bases,
    Z.of_nat (String.length bases) = end_ w - start w
    /\ fetch_and_store r fa range w
       = if use_cache r range then
           match substr (AsciiStrToUpper bases) 0
                   (end_ range - start range) with
           | Some s =>
               (Value s, set_cache r (AsciiStrToUpper bases) w,
                [MakeFetchCall (reference_name w) (start w) (end_ w - 1)])
           | None =>
               (Die, set_cache r (AsciiStrToUpper bases) w,
                [MakeFetchCall (reference_name w) (start w) (end_ w - 1)])
           end
         else (Value (AsciiStrToUpper bases), r,
               [MakeFetchCall (reference_name w) (start w) (end_ w - 1)]).
Proof.
  intros Hst HC Hse Hen.
  destruct (Hst (reference_name w) c (start w) (end_ w - 1) HC) as [Hl Hb];
    [lia|lia|].
  open_fetch.
  destruct (faidx_fetch_seq fa (reference_name w) (start w) (end_ w - 1))
    as [bases len].
  simpl in Hl, Hb. exists bases. split; [lia|].
  destruct (Z.leb_spec len 0); [lia|]. reflexivity.
Qed.

(** One call under an exact store: it succeeds, the answer has the asked
    length and no lower-case letter, and the cache invariant survives. *)
Lemma GetBases_exact (r : IndexedFastaReader) (fa : faidx_t)
    (range : Range) :
  faidx_ r = Some fa -> ints_ok r -> store_exact r fa -> cache_ok r ->
  IsValidInterval r range = true ->
  exists s r' calls,
    GetBases r range = (Value s, r', calls)
    /\ Z.of_nat (String.length s) = end_ range - start range
    /\ all_upper s = true
    /\ cache_ok r'.
Proof.
  intros Hfa Hints Hst Hok Hv.
  destruct (IsValidInterval_inv _ _ Hv) as (c & HC & Hse & Hen).
  destruct (Z.eq_dec (start range) (end_ range)) as [Heq|Hne].
  { exists "", r, []. rewrite (GetBases_shortcut r fa range Hfa Hv Heq).
    repeat split; [simpl; lia | exact Hok]. }
  rewrite (GetBases_unfold r fa range Hfa Hv Hne).
  destruct (use_cache r range) eqn:U.
  - destruct (use_cache_true _ _ U) as [Hpos Hfit].
    destruct (cache_lookup r range) as [w|] eqn:L.
    + (* hit *)
      apply cache_lookup_Some in L as [Hw Hcont].
      apply RangeContains_inv in Hcont as (_ & Hws & Hwe).
      unfold cache_ok in Hok. pose proof Hok as Hok'.
      rewrite Hw in Hok'. destruct Hok' as (_ & Hlen & Hup).
      rewrite substr_Some by lia.
      eexists _, r, []. split; [reflexivity|].
      split; [rewrite length_substring; lia|].
      split; [now apply all_upper_substring | exact Hok].
    + (* miss *)
      rewrite (expansion_window_exact r range c Hints) by (assumption || lia).
      set (w := MakeRange _ _ _).
      destruct (fetch_and_store_exact r fa range w c Hst HC)
        as (bases & Hlen & ->); [simpl; lia|simpl; lia|].
      rewrite U. rewrite substr_prefix by lia.
      simpl in Hlen.
      eexists _, _, _. split; [reflexivity|].
      split; [rewrite length_substring, length_AsciiStrToUpper; lia|].
      split; [apply all_upper_substring, all_upper_AsciiStrToUpper|].
      unfold cache_ok. simpl cached_range_. simpl small_read_cache_.
      split; [|split].
      * rewrite (IsValidInterval_contigs r) by reflexivity.
        apply (IsValidInterval_intro r w c); simpl; (assumption || lia).
      * rewrite length_AsciiStrToUpper. simpl. lia.
      * apply all_upper_AsciiStrToUpper.
  - (* uncached *)
    destruct (fetch_and_store_exact r fa range range c Hst HC)
      as (bases & Hlen & ->); [lia|lia|].
    rewrite U. eexists _, r, _. split; [reflexivity|].
    split; [rewrite length_AsciiStrToUpper; lia|].
    split; [apply all_upper_AsciiStrToUpper | exact Hok].
Qed.

Lemma store_exact_contigs (r r' : IndexedFastaReader) (fa : faidx_t) :
  contigs_ r' = contigs_ r -> store_exact r fa -> store_exact r' fa.
Proof.
  intros H Hst nm c s e HC. apply Hst. now rewrite <- (Contig_contigs r r').
Qed.

Lemma ints_ok_frame (r r' : IndexedFastaReader) :
  contigs_ r' = contigs_ r -> cache_size_bases_ r' = cache_size_bases_ r ->
  ints_ok r -> ints_ok r'.
Proof. unfold ints_ok. intros -> ->. auto. Qed.

(** Everything the theorems assume of a reader holds of every reader the
    calls lead to. *)
Lemma reachable_invariant (r0 r : IndexedFastaReader) (fa : faidx_t) :
  faidx_ r0 = Some fa -> ints_ok r0 -> store_exact r0 fa ->
  cached_range_ r0 = None ->
  reachable r0 r ->
  faidx_ r = Some fa /\ contigs_ r = contigs_ r0
  /\ cache_size_bases_ r = cache_size_bases_ r0 /\ cache_ok r.
Proof.
  intros Hfa Hints Hst Hempty Hreach.
  induction Hreach as [|r range Hreach IH].
  - repeat split; auto. unfold cache_ok. now rewrite Hempty.
  - destruct IH as (Hfa' & Hcs & Hsz & Hok).
    destruct (GetBases_frame r range) as (_ & F1 & F2 & F3).
    repeat split; try congruence.
    destruct (IsValidInterval r range) eqn:Hv.
    + destruct (GetBases_exact r fa range Hfa') as (s & r' & calls & -> & _ & _ & Hok');
        auto.
      * now apply (ints_ok_frame r0).
      * now apply (store_exact_contigs r0).
    + unfold GetBases. rewrite Hfa', Hv. exact Hok.
Qed.

(** C1.  Take an open reader as the constructor leaves it (empty cache
    slot) over a store that answers in-bounds fetches in full.  On every
    reader that [GetBases] calls lead to from it, every valid interval is
    answered successfully with exactly [end - start] characters, none of
    them lower-case -- whichever of the hit, miss and uncached paths the
    call takes. *)
Theorem GetBases_length_and_case (r0 r : IndexedFastaReader) (fa : faidx_t)
    (range : Range) :
  faidx_ r0 = Some fa ->
  ints_ok r0 ->
  store_exact r0 fa ->
  cached_range_ r0 = None ->
  reachable r0 r ->
  IsValidInterval r range = true ->
  exists s r' calls,
    GetBases r range = (Value s, r', calls)
    /\ Z.of_nat (String.length s) = end_ range - start range
    /\ all_upper s = true.
Proof.
  intros Hfa Hints Hst Hempty Hreach Hv.
  destruct (reachable_invariant r0 r fa Hfa Hints Hst Hempty Hreach)
    as (Hfa' & Hcs & Hsz & Hok).
  destruct (GetBases_exact r fa range Hfa') as (s & r' & calls & E & L & U & _);
    auto.
  - now apply (ints_ok_frame r0).
  - now apply (store_exact_contigs r0).
  - exists s, r', calls. auto.
Qed.

(** ** The in-memory store honours both contracts *)

Lemma store_serves_exact (r : IndexedFastaReader) (fa : faidx_t)
    (content : string -> string) :
  store_serves r fa content -> store_exact r fa.
Proof.
  intros Hs nm c s e HC Hse He.
  destruct (Hs nm c HC) as [Hlen Hf]. rewrite (Hf s e Hse He). simpl.
  split; [reflexivity|]. rewrite length_substring. lia.
Qed.

Lemma mem_fetch_in_bounds (sq : list (string * string)) (nm bases : string)
    (s e : Z) :
  MemFasta.lookup sq nm = Some bases ->
  0 <= s <= e -> e < Z.of_nat (String.length bases) ->
  faidx_fetch_seq (MemFasta.faidx sq) nm s e
  = (substring (Z.to_nat s) (Z.to_nat (e - s + 1)) bases, e - s + 1).
Proof.
  intros HL H1 H2. unfold MemFasta.faidx. cbn [faidx_fetch_seq]. rewrite HL.
  cbv zeta.
  replace (Z.max 0 (Z.min s (Z.of_nat (String.length bases)))) with s by lia.
  replace (Z.max (s - 1) (Z.min e (Z.of_nat (String.length bases) - 1)))
    with e by lia.
  reflexivity.
Qed.

Lemma mem_ints_ok (cache : Z) :
  cache <= INT_MAX -> ints_ok (MemFasta.reader cache).
Proof.
  intros H. split; [exact H|]. repeat constructor; vm_compute; discriminate.
Qed.

Lemma mem_store_serves (cache : Z) :
  store_serves (MemFasta.reader cache) (MemFasta.faidx MemFasta.seqs)
               MemFasta.content.
Proof.
  intros nm ci HC. unfold Contig in HC.
  change (contigs_ (MemFasta.reader cache))
    with [MemFasta.chr1; MemFasta.chr2] in HC.
  cbn [find] in HC. change (name MemFasta.chr1) with "chr1" in HC.
  change (name MemFasta.chr2) with "chr2" in HC.
  destruct (String.eqb_spec "chr1" nm) as [<-|N1].
  - injection HC as <-. split; [reflexivity|]. intros s e H1 H2.
    apply mem_fetch_in_bounds; [reflexivity|lia|exact H2].
  - destruct (String.eqb_spec "chr2" nm) as [<-|N2]; [|discriminate].
    injection HC as <-. split; [reflexivity|]. intros s e H1 H2.
    apply mem_fetch_in_bounds; [reflexivity|lia|exact H2].
Qed.

Lemma mem_store_exact (cache : Z) :
  store_exact (MemFasta.reader cache) (MemFasta.faidx MemFasta.seqs).
Proof. exact (store_serves_exact _ _ _ (mem_store_serves cache)). Qed.

Lemma GetBases_length_and_case_witness :
  exists s r' calls,
    GetBases reader_holding_chr1 (MakeRange "chr1" 1 4) = (Value s, r', calls)
    /\ Z.of_nat (String.length s) = 4 - 1
    /\ all_upper s = true.
Proof.
  apply (GetBases_length_and_case (MemFasta.reader 4) reader_holding_chr1
           (MemFasta.faidx MemFasta.seqs) (MakeRange "chr1" 1 4)).
  - reflexivity.
  - apply mem_ints_ok. vm_compute. discriminate.
  - apply mem_store_exact.
  - reflexivity.
  - apply reach_step, reach_refl.
  - reflexivity.
Defined.

(** The three paths on the in-memory store. *)
Example GetBases_hit_path :
  GetBases reader_holding_chr1 (MakeRange "chr1" 1 4)
  = (Value "CGT", reader_holding_chr1, []).
Proof. reflexivity. Qed.

Example GetBases_miss_path :
  GetBases reader_holding_chr1 (MakeRange "chr1" 3 6)
  = (Value "TNN", set_cache reader_holding_chr1 "TNNG" (MakeRange "chr1" 3 7),
     [MakeFetchCall "chr1" 3 6]).
Proof. reflexivity. Qed.

Example GetBases_uncached_path :
  GetBases reader_holding_chr1 (MakeRange "chr1" 0 8)
  = (Value "ACGTNNGA", reader_holding_chr1, [MakeFetchCall "chr1" 0 7]).
Proof. reflexivity. Qed.

(** ** Answers as slices of the store's contents *)

Lemma fetch_and_store_serves (r : IndexedFastaReader) (fa : faidx_t)
    (content : string -> string) (range w : Range) (c : ContigInfo) :
  store_serves r fa content ->
  Contig r (reference_name w) = Value c ->
  0 <= start w < end_ w -> end_ w <= n_bases c ->
  fetch_and_store r fa range w
  = if use_cache r range then
      match substr (slice content w) 0 (end_ range - start range) with
      | Some s =>
          (Value s, set_cache r (slice content w) w,
           [MakeFetchCall (reference_name w) (start w) (end_ w - 1)])
      | None =>
          (Die, set_cache r (slice content w) w,
           [MakeFetchCall (reference_name w) (start w) (end_ w - 1)])
      end
    else (Value (slice content w), r,
          [MakeFetchCall (reference_name w) (start w) (end_ w - 1)]).
Proof.
  intros Hs HC Hse Hen. destruct (Hs _ _ HC) as [_ Hf].
  open_fetch.
  rewrite Hf by lia.
  replace (end_ w - 1 - start w + 1) with (end_ w - start w) by lia.
  destruct (Z.leb_spec (end_ w - start w) 0); [lia|]. reflexivity.
Qed.

(** One call over a store with fixed contents: the answer is the slice
    asked for, whatever the slot held, and the slot stays coherent. *)
Lemma GetBases_serves (r : IndexedFastaReader) (fa : faidx_t)
    (content : string -> string) (range : Range) :
  faidx_ r = Some fa -> ints_ok r -> store_serves r fa content ->
  cache_coherent r content ->
  IsValidInterval r range = true ->
  exists r' calls,
    GetBases r range = (Value (slice content range), r', calls)
    /\ cache_coherent r' content.
Proof.
  intros Hfa Hints Hs Hco Hv.
  destruct (IsValidInterval_inv _ _ Hv) as (c & HC & Hse & Hen).
  destruct (Hs _ _ HC) as [Hclen _].
  destruct (Z.eq_dec (start range) (end_ range)) as [Heq|Hne].
  { exists r, []. rewrite (GetBases_shortcut r fa range Hfa Hv Heq).
    split; [|exact Hco]. unfold slice.
    replace (Z.to_nat (end_ range - start range)) with 0%nat by lia.
    now rewrite substring_zero_length. }
  rewrite (GetBases_unfold r fa range Hfa Hv Hne).
  destruct (use_cache r range) eqn:U.
  - destruct (use_cache_true _ _ U) as [Hpos Hfit].
    destruct (cache_lookup r range) as [w|] eqn:L.
    + (* hit *)
      apply cache_lookup_Some in L as [Hw Hcont].
      apply RangeContains_inv in Hcont as (Hnm & Hws & Hwe).
      pose proof Hco as Hco'. unfold cache_coherent in Hco'.
      rewrite Hw in Hco'. destruct Hco' as (Hvw & Hbases).
      destruct (IsValidInterval_inv _ _ Hvw) as (cw & HCw & Hwse & Hwen).
      destruct (Hs _ _ HCw) as [Hwlen _].
      assert (Hsize : Z.of_nat (String.length (small_read_cache_ r))
                      = end_ w - start w).
      { rewrite Hbases, length_AsciiStrToUpper, length_substring. lia. }
      rewrite substr_Some by lia.
      exists r, []. split; [|exact Hco].
      rewrite Hbases, <- AsciiStrToUpper_substring.
      rewrite substring_substring by lia.
      unfold slice. rewrite Hnm.
      replace (Z.to_nat (start w) + Z.to_nat (start range - start w))%nat
        with (Z.to_nat (start range)) by lia.
      reflexivity.
    + (* miss *)
      rewrite (expansion_window_exact r range c Hints) by (assumption || lia).
      set (w := MakeRange _ _ _).
      rewrite (fetch_and_store_serves r fa content range w c Hs HC)
        by (simpl; lia).
      rewrite U.
      assert (Hsize : Z.of_nat (String.length (slice content w))
                      = end_ w - start w).
      { unfold slice. rewrite length_AsciiStrToUpper, length_substring.
        simpl. lia. }
      simpl in Hsize.
      rewrite substr_Some by (simpl; lia).
      eexists _, _. split.
      * unfold slice at 1. rewrite <- AsciiStrToUpper_substring.
        rewrite substring_substring by (simpl; lia).
        unfold slice. simpl start. simpl reference_name.
        replace (Z.to_nat (start range) + Z.to_nat 0)%nat
          with (Z.to_nat (start range)) by lia.
        reflexivity.
      * unfold cache_coherent. simpl cached_range_. simpl small_read_cache_.
        split; [|reflexivity].
        rewrite (IsValidInterval_contigs r) by reflexivity.
        apply (IsValidInterval_intro r w c); simpl; (assumption || lia).
  - (* uncached *)
    rewrite (fetch_and_store_serves r fa content range range c Hs HC)
      by lia.
    rewrite U. eexists r, _. split; [reflexivity | exact Hco].
Qed.

Lemma store_serves_contigs (r r' : IndexedFastaReader) (fa : faidx_t)
    (content : string -> string) :
  contigs_ r' = contigs_ r ->
  store_serves r fa content -> store_serves r' fa content.
Proof.
  intros H Hs nm c HC. apply Hs. now rewrite <- (Contig_contigs r r').
Qed.

Lemma reachable_coherent (r0 r : IndexedFastaReader) (fa : faidx_t)
    (content : string -> string) :
  faidx_ r0 = Some fa -> ints_ok r0 -> store_serves r0 fa content ->
  cached_range_ r0 = None ->
  reachable r0 r ->
  faidx_ r = Some fa /\ contigs_ r = contigs_ r0
  /\ cache_size_bases_ r = cache_size_bases_ r0 /\ cache_coherent r content.
Proof.
  intros Hfa Hints Hst Hempty Hreach.
  induction Hreach as [|r range Hreach IH].
  - repeat split; auto. unfold cache_coherent. now rewrite Hempty.
  - destruct IH as (Hfa' & Hcs & Hsz & Hco).
    destruct (GetBases_frame r range) as (_ & F1 & F2 & F3).
    repeat split; try congruence.
    destruct (IsValidInterval r range) eqn:Hv.
    + destruct (GetBases_serves r fa content range Hfa')
        as (r' & calls & -> & Hco'); auto.
      * now apply (ints_ok_frame r0).
      * now apply (store_serves_contigs r0).
    + unfold GetBases. rewrite Hfa', Hv. exact Hco.
Qed.

(** ** Idempotence *)

(** C4.  Over a store with fixed contents, start from an open reader with
    an empty slot.  For a valid interval, any two readers that [GetBases]
    calls lead to -- empty slot, containing window, other window -- give
    the same answer, namely the upper-cased slice of the contents; in
    particular the call repeated on the reader it has just left answers
    as it did the first time. *)
Theorem GetBases_idempotent (r0 r1 r2 : IndexedFastaReader) (fa : faidx_t)
    (content : string -> string) (range : Range) :
  faidx_ r0 = Some fa ->
  ints_ok r0 ->
  store_serves r0 fa content ->
  cached_range_ r0 = None ->
  reachable r0 r1 ->
  reachable r0 r2 ->
  IsValidInterval r0 range = true ->
  fst (fst (GetBases r1 range)) = Value (slice content range)
  /\ fst (fst (GetBases r2 range)) = fst (fst (GetBases r1 range))
  /\ fst (fst (GetBases (snd (fst (GetBases r1 range))) range))
     = fst (fst (GetBases r1 range)).
Proof.
  intros Hfa Hints Hs Hempty H1 H2 Hv.
  assert (A : forall r, reachable r0 r ->
                fst (fst (GetBases r range)) = Value (slice content range)).
  { intros r Hr.
    destruct (reachable_coherent r0 r fa content Hfa Hints Hs Hempty Hr)
      as (Hfa' & Hcs & Hsz & Hco).
    destruct (GetBases_serves r fa content range Hfa')
      as (r' & calls & -> & _); auto.
    - now apply (ints_ok_frame r0).
    - now apply (store_serves_contigs r0).
    - now rewrite (IsValidInterval_contigs r0 r). }
  rewrite (A r1 H1), (A r2 H2).
  rewrite (A _ (reach_step r0 r1 range H1)). auto.
Qed.

Lemma GetBases_idempotent_witness :
  fst (fst (GetBases reader_holding_chr1 (MakeRange "chr1" 1 4)))
  = Value "CGT"
  /\ fst (fst (GetBases reader_holding_chr2 (MakeRange "chr1" 1 4)))
     = fst (fst (GetBases reader_holding_chr1 (MakeRange "chr1" 1 4)))
  /\ fst (fst (GetBases
                 (snd (fst (GetBases reader_holding_chr1
                              (MakeRange "chr1" 1 4))))
                 (MakeRange "chr1" 1 4)))
     = fst (fst (GetBases reader_holding_chr1 (MakeRange "chr1" 1 4))).
Proof.
  apply (GetBases_idempotent (MemFasta.reader 4) reader_holding_chr1
           reader_holding_chr2 (MemFasta.faidx MemFasta.seqs)
           MemFasta.content (MakeRange "chr1" 1 4)).
  - reflexivity.
  - apply mem_ints_ok. vm_compute. discriminate.
  - apply mem_store_serves.
  - reflexivity.
  - apply reach_step, reach_refl.
  - apply reach_step, reach_refl.
  - reflexivity.
Defined.

(** ** The containment law *)

(** A request inside the cached window is served from the slot. *)
Lemma GetBases_hit (r : IndexedFastaReader) (fa : faidx_t)
    (w range : Range) :
  faidx_ r = Some fa ->
  cached_range_ r = Some w ->
  RangeContains w range = true ->
  IsValidInterval r range = true ->
  0 < cache_size_bases_ r ->
  end_ w - start w <= cache_size_bases_ r ->
  exists v, GetBases r range = (v, r, [])
    /\ (Z.of_nat (String.length (small_read_cache_ r)) = end_ w - start w ->
        exists s, v = Value s
          /\ Z.of_nat (String.length s) = end_ range - start range).
Proof.
  intros Hfa Hw Hcont Hv Hpos Hwin.
  destruct (IsValidInterval_inv _ _ Hv) as (c & HC & Hse & Hen).
  destruct (RangeContains_inv _ _ Hcont) as (Hnm & Hws & Hwe).
  destruct (Z.eq_dec (start range) (end_ range)) as [Heq|Hne].
  { rewrite (GetBases_shortcut r fa range Hfa Hv Heq).
    eexists. split; [reflexivity|]. intros _. exists "". simpl. split; [reflexivity|lia]. }
  rewrite (GetBases_unfold r fa range Hfa Hv Hne).
  assert (U : use_cache r range = true).
  { unfold use_cache. apply andb_true_iff. split; lia. }
  rewrite U. unfold cache_lookup. rewrite Hw, Hcont.
  destruct (substr _ _ _) as [s|] eqn:S; eexists; (split; [reflexivity|]);
    intros Hlen; rewrite substr_Some in S by lia.
  - injection S as <-. eexists. split; [reflexivity|].
    rewrite length_substring. lia.
  - discriminate.
Qed.

(** What a successful first call that went to the store leaves behind. *)
Lemma GetBases_miss_installs (r : IndexedFastaReader) (fa : faidx_t)
    (c : ContigInfo) (nm : string) (a b : Z) (s : string)
    (r1 : IndexedFastaReader) (calls : list FetchCall) :
  faidx_ r = Some fa -> ints_ok r ->
  0 < cache_size_bases_ r ->
  Contig r nm = Value c ->
  GetBases r (MakeRange nm a b) = (Value s, r1, calls) ->
  calls <> [] ->
  a < b -> b - a <= cache_size_bases_ r ->
  exists bases,
    r1 = set_cache r bases
           (MakeRange nm a (Z.min (a + cache_size_bases_ r) (n_bases c)))
    /\ (store_exact r fa ->
        Z.of_nat (String.length bases)
        = Z.min (a + cache_size_bases_ r) (n_bases c) - a).
Proof.
  intros Hfa Hints Hpos HC HG Hcalls Hab Hfit.
  destruct (IsValidInterval r (MakeRange nm a b)) eqn:Hv.
  2:{ unfold GetBases in HG. rewrite Hfa, Hv in HG. discriminate. }
  destruct (IsValidInterval_inv _ _ Hv) as (c' & HC' & Hse & Hen).
  simpl in HC', Hse, Hen. rewrite HC in HC'. injection HC' as <-.
  rewrite (GetBases_unfold r fa _ Hfa Hv) in HG by (simpl; lia).
  assert (U : use_cache r (MakeRange nm a b) = true).
  { unfold use_cache. apply andb_true_iff. simpl. split; lia. }
  rewrite U in HG.
  destruct (cache_lookup r (MakeRange nm a b)).
  { destruct (substr _ _ _); injection HG as _ _ <-; now destruct Hcalls. }
  rewrite (expansion_window_exact r _ c Hints) in HG by (assumption || lia).
  simpl reference_name in HG. simpl start in HG.
  unfold fetch_and_store in HG. simpl fc_name in HG. simpl fc_beg in HG.
  simpl fc_end in HG.
  set (e := Z.min (a + cache_size_bases_ r) (n_bases c)) in *.
  assert (He : a < e) by (unfold e; lia).
  destruct (faidx_fetch_seq fa nm a (e - 1)) as [bases len] eqn:F.
  destruct (len <=? 0); [discriminate|].
  rewrite U in HG. exists (AsciiStrToUpper bases). split.
  - destruct (substr _ _ _); [|discriminate]. now injection HG as _ <- _.
  - intros Hst. destruct (Hst nm c a (e - 1) HC) as [_ Hb]; [lia|lia|].
    rewrite F in Hb. simpl in Hb. rewrite length_AsciiStrToUpper. lia.
Qed.

(** C2, as stated, fails.  With a cache of four bases the slot holds the
    window [[0, 4)] of chr1.  [GetBases(chr1, 1, 3)] succeeds from the slot
    and leaves that window in place, so the later [GetBases(chr1, 2, 5)],
    with [1 <= 2] and [5 <= min(1 + 4, 8)], is not contained and goes to
    the store. *)
Lemma containment_law_fails_after_a_hit :
  ~ containment_law_as_stated reader_holding_chr1 "chr1" 1 3 2 5.
Proof.
  intros H.
  specialize (H (MemFasta.faidx MemFasta.seqs) MemFasta.chr1 "CG"
                reader_holding_chr1 []).
  assert (E : snd (GetBases reader_holding_chr1 (MakeRange "chr1" 2 5)) = []).
  { apply H; try reflexivity; vm_compute; congruence. }
  vm_compute in E. discriminate E.
Qed.

(** C2, amended.  On an open reader with cache budget C > 0 over an exact
    store, let [GetBases(nm, a, b)], with [a < b] and [b - a <= C], succeed
    by going to the store (a miss).  Then any run of later valid calls
    [GetBases(nm, a', b')] with [a <= a'] and [b' <= min(a + C, contig
    length)] makes no store call at all, every one of them is answered with
    its [b' - a'] characters, and the reader is left as the first call left
    it. *)
Theorem containment_law_after_a_miss (r : IndexedFastaReader) (fa : faidx_t)
    (c : ContigInfo) (nm : string) (a b : Z) (s : string)
    (r1 : IndexedFastaReader) (calls : list FetchCall)
    (ranges : list Range) :
  faidx_ r = Some fa ->
  ints_ok r ->
  store_exact r fa ->
  0 < cache_size_bases_ r ->
  Contig r nm = Value c ->
  GetBases r (MakeRange nm a b) = (Value s, r1, calls) ->
  calls <> [] ->
  a < b -> b - a <= cache_size_bases_ r ->
  Forall (fun range =>
            reference_name range = nm
            /\ IsValidInterval r1 range = true
            /\ a <= start range
            /\ end_ range <= Z.min (a + cache_size_bases_ r) (n_bases c))
         ranges ->
  snd (GetBases_all r1 ranges) = []
  /\ snd (fst (GetBases_all r1 ranges)) = r1
  /\ Forall2 (fun range v =>
                exists s', v = Value s'
                  /\ Z.of_nat (String.length s') = end_ range - start range)
             ranges (fst (fst (GetBases_all r1 ranges))).
Proof.
  intros Hfa Hints Hst Hpos HC HG Hcalls Hab Hfit Hall.
  destruct (GetBases_miss_installs r fa c nm a b s r1 calls)
    as (bases & Hr1 & Hlen); auto.
  specialize (Hlen Hst).
  assert (Hone : forall range,
             reference_name range = nm
             /\ IsValidInterval r1 range = true
             /\ a <= start range
             /\ end_ range <= Z.min (a + cache_size_bases_ r) (n_bases c) ->
             exists s', GetBases r1 range = (Value s', r1, [])
               /\ Z.of_nat (String.length s') = end_ range - start range).
  { intros range (Hnm & Hv & Ha & Hb).
    destruct (GetBases_hit r1 fa
                (MakeRange nm a (Z.min (a + cache_size_bases_ r) (n_bases c)))
                range) as (v & E & Hval).
    - rewrite Hr1. exact Hfa.
    - rewrite Hr1. reflexivity.
    - unfold RangeContains. simpl. rewrite Hnm, String.eqb_refl.
      apply andb_true_iff. split; [apply andb_true_iff; split|]; lia.
    - exact Hv.
    - rewrite Hr1. exact Hpos.
    - rewrite Hr1. simpl. lia.
    - destruct Hval as (s' & -> & Hs'); [rewrite Hr1; simpl; lia|].
      exists s'. auto. }
  clear HG Hr1 Hlen.
  induction Hall as [|range rest Hrange Hrest IH]; simpl.
  - repeat split. constructor.
  - destruct (Hone range Hrange) as (s' & -> & Hs').
    destruct (GetBases_all r1 rest) as [[vs r2] calls2].
    simpl in IH |- *. destruct IH as (-> & -> & Hvs).
    repeat split. constructor; [|exact Hvs]. exists s'. auto.
Qed.

Lemma containment_law_after_a_miss_witness :
  snd (GetBases_all reader_holding_chr1
         [MakeRange "chr1" 1 3; MakeRange "chr1" 2 4; MakeRange "chr1" 0 4])
  = []
  /\ snd (fst (GetBases_all reader_holding_chr1
                 [MakeRange "chr1" 1 3; MakeRange "chr1" 2 4;
                  MakeRange "chr1" 0 4]))
     = reader_holding_chr1
  /\ Forall2 (fun range v =>
                exists s', v = Value s'
                  /\ Z.of_nat (String.length s') = end_ range - start range)
             [MakeRange "chr1" 1 3; MakeRange "chr1" 2 4;
              MakeRange "chr1" 0 4]
             (fst (fst (GetBases_all reader_holding_chr1
                          [MakeRange "chr1" 1 3; MakeRange "chr1" 2 4;
                           MakeRange "chr1" 0 4]))).
Proof.
  apply (containment_law_after_a_miss (MemFasta.reader 4)
           (MemFasta.faidx MemFasta.seqs) MemFasta.chr1 "chr1" 0 2 "AC"
           reader_holding_chr1 [MakeFetchCall "chr1" 0 3]).
  - reflexivity.
  - apply mem_ints_ok. vm_compute. discriminate.
  - apply mem_store_exact.
  - reflexivity.
  - reflexivity.
  - reflexivity.
  - discriminate.
  - lia.
  - simpl. lia.
  - repeat constructor; simpl; lia.
Defined.

(** ** Iteration *)

Lemma find_unique_name (cs : list ContigInfo) (c : ContigInfo) :
  NoDup (map name cs) -> In c cs ->
  find (fun x => String.eqb (name x) (name c)) cs = Some c.
Proof.
  induction cs as [|x cs IH]; intros Hnd Hin; [destruct Hin|].
  simpl in Hnd. inversion Hnd as [|? ? Hnotin Hnd']; subst.
  simpl. destruct Hin as [->|Hin].
  - now rewrite String.eqb_refl.
  - destruct (String.eqb_spec (name x) (name c)) as [E|_].
    + destruct Hnotin. rewrite E. now apply in_map.
    + now apply IH.
Qed.

(** With unique names every catalog entry spans a valid interval. *)
Lemma whole_contig_valid (r : IndexedFastaReader) (c : ContigInfo) :
  ints_ok r -> NoDup (map name (contigs_ r)) -> In c (contigs_ r) ->
  IsValidInterval r (MakeRange (name c) 0 (n_bases c)) = true.
Proof.
  intros [_ Hints] Hnd Hin.
  assert (HC : Contig r (name c) = Value c).
  { unfold Contig. now rewrite find_unique_name. }
  rewrite Forall_forall in Hints. specialize (Hints c Hin).
  apply (IsValidInterval_intro r _ c); simpl; (assumption || lia).
Qed.

Lemma Next_at_end (it : IndexedFastaReaderIterable)
    (r : IndexedFastaReader) (out : GenomeReferenceRecord) :
  reader_attached it = true ->
  (List.length (contigs_ r) <= pos_ it)%nat ->
  Next it r out = (Value false, out, it, r, []).
Proof.
  intros Ha Hle. unfold Next, CheckIsAlive. rewrite Ha.
  apply Nat.leb_le in Hle. now rewrite Hle.
Qed.

Lemma Next_at_contig (it : IndexedFastaReaderIterable)
    (r : IndexedFastaReader) (out : GenomeReferenceRecord)
    (contig : ContigInfo) :
  reader_attached it = true ->
  nth_error (contigs_ r) (pos_ it) = Some contig ->
  Next it r out
  = match GetBases r (MakeRange (name contig) 0 (n_bases contig)) with
    | (Value bases, r', calls) =>
        (Value true, (name contig, bases),
         MakeIterable (reader_attached it) (S (pos_ it)), r', calls)
    | (_, r', calls) => (Die, (name contig, snd out), it, r', calls)
    end.
Proof.
  intros Ha Hnth. unfold Next, CheckIsAlive. rewrite Ha, Hnth.
  assert (Hlt : (pos_ it < List.length (contigs_ r))%nat).
  { apply nth_error_Some. rewrite Hnth. discriminate. }
  apply Nat.leb_gt in Hlt. now rewrite Hlt.
Qed.

(** The iteration from position [length pre] on, over the catalog
    [pre ++ suf]. *)
Lemma drain_suffix (fa : faidx_t) (cs : list ContigInfo) :
  forall (suf pre : list ContigInfo) (r : IndexedFastaReader) (fuel : nat),
    contigs_ r = cs -> cs = (pre ++ suf)%list ->
    faidx_ r = Some fa -> ints_ok r -> store_exact r fa -> cache_ok r ->
    NoDup (map name cs) ->
    (List.length suf < fuel)%nat ->
    exists outs r' calls,
      drain fuel (MakeIterable true (List.length pre)) r
      = Some (outs, Value false, r', calls)
      /\ map (fun o => (fst o, Value (snd o))) outs = full_sequences r suf.
Proof.
  induction suf as [|c suf IH]; intros pre r fuel Hcs Hsplit Hfa Hints Hst
                                       Hok Hnd Hfuel.
  - destruct fuel as [|fuel]; [simpl in Hfuel; lia|].
    exists [], r, []. split; [|reflexivity].
    simpl. rewrite Next_at_end; [reflexivity|reflexivity|].
    rewrite Hcs, Hsplit, app_nil_r. simpl. lia.
  - destruct fuel as [|fuel]; [simpl in Hfuel; lia|].
    simpl in Hfuel.
    assert (Hin : In c (contigs_ r)).
    { rewrite Hcs, Hsplit. apply in_or_app. right. now left. }
    pose proof (whole_contig_valid r c Hints
                  ltac:(now rewrite Hcs) Hin) as Hv.
    destruct (GetBases_exact r fa _ Hfa Hints Hst Hok Hv)
      as (s & r1 & calls1 & HG & _ & _ & Hok1).
    pose proof (GetBases_frame r (MakeRange (name c) 0 (n_bases c))) as F.
    rewrite HG in F. simpl in F. destruct F as (_ & F1 & F2 & F3).
    destruct (IH (pre ++ [c])%list r1 fuel) as (outs & r2 & calls2 & HD & HF).
    + congruence.
    + rewrite Hsplit, <- app_assoc. reflexivity.
    + congruence.
    + now apply (ints_ok_frame r).
    + now apply (store_exact_contigs r).
    + exact Hok1.
    + exact Hnd.
    + lia.
    + rewrite length_app in HD. simpl in HD. rewrite Nat.add_1_r in HD.
      exists ((name c, s) :: outs), r2, (calls1 ++ calls2)%list.
      split.
      * simpl. rewrite (Next_at_contig _ r _ c); [|reflexivity|].
        -- rewrite HG. simpl reader_attached. simpl pos_. rewrite HD.
           reflexivity.
        -- simpl pos_. rewrite Hcs, Hsplit, nth_error_app2, Nat.sub_diag by lia.
           reflexivity.
      * simpl. rewrite HG. simpl. now rewrite HF.
Qed.

Lemma full_sequences_names (cs : list ContigInfo) :
  forall r, map fst (full_sequences r cs) = map name cs.
Proof.
  induction cs as [|c cs IH]; intros r; [reflexivity|].
  simpl. destruct (GetBases r _) as [[v r'] calls]. simpl. now rewrite IH.
Qed.

(** C9.  On an open reader over an exact store, with a catalog of unique
    names, a client that calls [Next] on a fresh iterable until it answers
    [false] -- any number of calls above the catalog size is enough --
    receives one record per catalog entry, in catalog order; the names are
    the catalog's names, the count is the catalog size, each sequence is
    what [GetBases(name, 0, n_bases)] answers on the reader as the previous
    record left it, and the call after the last entry answers [false].  An
    empty catalog yields no record. *)
Theorem Iterate_yields_catalog (r : IndexedFastaReader) (fa : faidx_t)
    (fuel : nat) :
  faidx_ r = Some fa ->
  ints_ok r ->
  store_exact r fa ->
  cache_ok r ->
  NoDup (map name (contigs_ r)) ->
  (List.length (contigs_ r) < fuel)%nat ->
  exists outs r' calls,
    drain fuel (Iterate r) r = Some (outs, Value false, r', calls)
    /\ map fst outs = map name (contigs_ r)
    /\ List.length outs = List.length (contigs_ r)
    /\ map (fun o => (fst o, Value (snd o))) outs
       = full_sequences r (contigs_ r)
    /\ (contigs_ r = [] -> outs = []).
Proof.
  intros Hfa Hints Hst Hok Hnd Hfuel.
  destruct (drain_suffix fa (contigs_ r) (contigs_ r) [] r fuel)
    as (outs & r' & calls & HD & HF); auto.
  exists outs, r', calls.
  assert (Hnames : map fst outs = map name (contigs_ r)).
  { rewrite <- (full_sequences_names (contigs_ r) r), <- HF, map_map.
    reflexivity. }
  split; [exact HD|]. split; [exact Hnames|]. split; [|split].
  - apply (f_equal (@List.length string)) in Hnames.
    now rewrite !length_map in Hnames.
  - exact HF.
  - intros Hnil. rewrite Hnil in Hnames. destruct outs; [reflexivity|].
    discriminate.
Qed.

Lemma Iterate_yields_catalog_witness :
  exists outs r' calls,
    drain 3 (Iterate (MemFasta.reader 4)) (MemFasta.reader 4)
    = Some (outs, Value false, r', calls)
    /\ map fst outs = ["chr1"; "chr2"]
    /\ List.length outs = 2%nat
    /\ map (fun o => (fst o, Value (snd o))) outs
       = full_sequences (MemFasta.reader 4) [MemFasta.chr1; MemFasta.chr2]
    /\ (contigs_ (MemFasta.reader 4) = [] -> outs = []).
Proof.
  apply (Iterate_yields_catalog (MemFasta.reader 4)
           (MemFasta.faidx MemFasta.seqs) 3).
  - reflexivity.
  - apply mem_ints_ok. vm_compute. discriminate.
  - apply mem_store_exact.
  - exact I.
  - repeat constructor; simpl; intuition discriminate.
  - simpl. lia.
Defined.

Example Iterate_on_mem :
  option_map (fun x => fst (fst x))
             (drain 3 (Iterate (MemFasta.reader 4)) (MemFasta.reader 4))
  = Some ([("chr1", "ACGTNNGA"); ("chr2", "TTAC")], Value false).
Proof. reflexivity. Qed.

(** ** Errors during iteration *)

(** Whatever non-OK status [GetBases] returns for the entry at [pos_],
    [Next] does not return it: [ValueOrDie] ends the process. *)
Lemma Next_dies_on_failure (it : IndexedFastaReaderIterable)
    (r : IndexedFastaReader) (out : GenomeReferenceRecord)
    (contig : ContigInfo) (code : Code) (r' : IndexedFastaReader)
    (calls : list FetchCall) :
  reader_attached it = true ->
  nth_error (contigs_ r) (pos_ it) = Some contig ->
  GetBases r (MakeRange (name contig) 0 (n_bases contig))
  = (Failure code, r', calls) ->
  Next it r out = (Die, (name contig, snd out), it, r', calls).
Proof.
  intros Ha Hnth HG. rewrite (Next_at_contig it r out contig Ha Hnth).
  now rewrite HG.
Qed.

(** C10.  The claim fails on [Next].  An iterable is made on an open
    reader and the reader is then closed: [GetBases] on the first catalog
    entry returns FailedPrecondition, and [Next] answers neither that
    status nor any other -- the process is terminated.  The same happens on
    an open reader whose store fails the fetch: [GetBases] returns
    InvalidArgument and [Next] terminates the process. *)
Theorem Next_terminates_instead_of_returning_the_error :
  let opened := MemFasta.reader 4 in
  let it := Iterate opened in
  let closed := snd (Close opened) in
  let broken :=
    MakeReader "mem.fa" (Some MemFasta.broken) [MemFasta.chr1] 4 "" None in
  GetBases closed (MakeRange "chr1" 0 8)
  = (Failure FailedPrecondition, closed, [])
  /\ Next it closed ("", "") = (Die, ("chr1", ""), it, closed, [])
  /\ GetBases broken (MakeRange "chr1" 0 8)
     = (Failure InvalidArgument, broken, [MakeFetchCall "chr1" 0 7])
  /\ Next (Iterate broken) broken ("", "")
     = (Die, ("chr1", ""), Iterate broken, broken,
        [MakeFetchCall "chr1" 0 7]).
Proof. repeat split. Qed.

(** ** The constructor *)

Lemma extract_contigs_lengths (faidx : faidx_t) (n : nat) :
  forall i contigs,
    (forall nm, faidx_seq_len faidx nm <= INT_MAX) ->
    extract_contigs faidx i n = Value contigs ->
    Forall (fun c => 0 <= n_bases c <= INT_MAX) contigs.
Proof.
  induction n as [|n IH]; intros i contigs Hint; simpl.
  - intros [= <-]. constructor.
  - destruct (faidx_iseq faidx i) as [nm|]; [|discriminate].
    destruct (Z.ltb_spec (faidx_seq_len faidx nm) 0); [discriminate|].
    destruct (extract_contigs faidx (i + 1) n) as [cs| |] eqn:E;
      try discriminate.
    intros [= <-]. constructor.
    + simpl. split; [lia | apply Hint].
    + apply (IH (i + 1)); assumption.
Qed.

(** A reader fresh from the constructor is open, has an empty slot, and
    its integers are in range when the index speaks in [int]s. *)
Lemma new_reader_sound (fasta_path : string) (faidx : faidx_t)
    (cache_size_bases : Z) (r : IndexedFastaReader) :
  cache_size_bases <= INT_MAX ->
  (forall nm, faidx_seq_len faidx nm <= INT_MAX) ->
  new_IndexedFastaReader fasta_path faidx cache_size_bases = Value r ->
  faidx_ r = Some faidx /\ cached_range_ r = None /\ cache_ok r
  /\ ints_ok r.
Proof.
  intros Hc Hint. unfold new_IndexedFastaReader, ExtractContigsFromFai.
  destruct (faidx_nseq faidx <? 0); [discriminate|].
  destruct (extract_contigs faidx 0 _) as [cs| |] eqn:E; try discriminate.
  intros [= <-]. repeat split; simpl; try exact Hc.
  eapply extract_contigs_lengths; eassumption.
Qed.

Example new_reader_on_mem :
  new_IndexedFastaReader "mem.fa" (MemFasta.faidx MemFasta.seqs) 4
  = Value (MemFasta.reader 4).
Proof. reflexivity. Qed.

(** ** The catalog that the constructor extracts *)

Lemma extract_contigs_entries (faidx : faidx_t) (n : nat) :
  forall (i0 : Z) (contigs : list ContigInfo),
    extract_contigs faidx i0 n = Value contigs ->
    List.length contigs = n
    /\ forall k, (k < n)%nat ->
         exists nm,
           faidx_iseq faidx (i0 + Z.of_nat k) = Some nm
           /\ 0 <= faidx_seq_len faidx nm
           /\ nth_error contigs k
              = Some (MakeContigInfo nm "" (faidx_seq_len faidx nm)
                                     (i0 + Z.of_nat k)).
Proof.
  induction n as [|n IH]; intros i0 contigs; simpl.
  - intros [= <-]. split; [reflexivity|]. intros k Hk. lia.
  - destruct (faidx_iseq faidx i0) as [nm|] eqn:Hnm; [|discriminate].
    destruct (Z.ltb_spec (faidx_seq_len faidx nm) 0) as [|Hlen];
      [discriminate|].
    destruct (extract_contigs faidx (i0 + 1) n) as [cs| |] eqn:E;
      try discriminate.
    intros [= <-]. destruct (IH _ _ E) as [Hl Hk]. split; [simpl; lia|].
    intros [|k] Hlt.
    + exists nm. rewrite Z.add_0_r. auto.
    + destruct (Hk k ltac:(lia)) as (nm' & H1 & H2 & H3).
      exists nm'.
      replace (i0 + Z.of_nat (S k)) with (i0 + 1 + Z.of_nat k) by lia.
      auto.
Qed.

(** X1.  When [ExtractContigsFromFai] returns, the catalog has exactly
    [faidx_nseq] entries and entry [k] carries the name [faidx_iseq] gives
    for [k], an empty description, the (non-negative) length
    [faidx_seq_len] gives for that name, and [k] as its position in the
    FASTA. *)
Theorem ExtractContigsFromFai_entries (faidx : faidx_t)
    (contigs : list ContigInfo) :
  ExtractContigsFromFai faidx = Value contigs ->
  Z.of_nat (List.length contigs) = faidx_nseq faidx
  /\ forall k, (k < List.length contigs)%nat ->
       exists nm,
         faidx_iseq faidx (Z.of_nat k) = Some nm
         /\ 0 <= faidx_seq_len faidx nm
         /\ nth_error contigs k
            = Some (MakeContigInfo nm "" (faidx_seq_len faidx nm)
                                   (Z.of_nat k)).
Proof.
  unfold ExtractContigsFromFai.
  destruct (Z.ltb_spec (faidx_nseq faidx) 0) as [|Hn]; [discriminate|].
  intros E. destruct (extract_contigs_entries _ _ _ _ E) as [Hl Hk].
  split; [lia|]. intros k Hlt. rewrite Hl in Hlt.
  destruct (Hk k Hlt) as (nm & H1 & H2 & H3). exists nm. auto.
Qed.

Lemma ExtractContigsFromFai_entries_witness :
  Z.of_nat (List.length [MemFasta.chr1; MemFasta.chr2])
  = faidx_nseq (MemFasta.faidx MemFasta.seqs)
  /\ forall k, (k < List.length [MemFasta.chr1; MemFasta.chr2])%nat ->
       exists nm,
         faidx_iseq (MemFasta.faidx MemFasta.seqs) (Z.of_nat k) = Some nm
         /\ 0 <= faidx_seq_len (MemFasta.faidx MemFasta.seqs) nm
         /\ nth_error [MemFasta.chr1; MemFasta.chr2] k
            = Some (MakeContigInfo nm ""
                      (faidx_seq_len (MemFasta.faidx MemFasta.seqs) nm)
                      (Z.of_nat k)).
Proof.
  apply (ExtractContigsFromFai_entries (MemFasta.faidx MemFasta.seqs)
           [MemFasta.chr1; MemFasta.chr2]).
  reflexivity.
Defined.

Lemma extract_contigs_never_fails (faidx : faidx_t) (n : nat) :
  forall i0 code, extract_contigs faidx i0 n <> Failure code.
Proof.
  induction n as [|n IH]; intros i0 code; simpl; [discriminate|].
  destruct (faidx_iseq faidx i0) as [nm|]; [|discriminate].
  destruct (faidx_seq_len faidx nm <? 0); [discriminate|].
  destruct (extract_contigs faidx (i0 + 1) n) as [cs| |] eqn:E;
    try discriminate.
  now apply IH in E.
Qed.

Lemma extract_contigs_succeeds (faidx : faidx_t) (n : nat) :
  forall i0,
    (forall k, (k < n)%nat ->
       exists nm, faidx_iseq faidx (i0 + Z.of_nat k) = Some nm
                  /\ 0 <= faidx_seq_len faidx nm) ->
    exists contigs, extract_contigs faidx i0 n = Value contigs.
Proof.
  induction n as [|n IH]; intros i0 H; simpl; [eauto|].
  destruct (H 0%nat ltac:(lia)) as (nm & Hnm & Hlen).
  rewrite Z.add_0_r in Hnm. rewrite Hnm.
  destruct (Z.ltb_spec (faidx_seq_len faidx nm) 0); [lia|].
  destruct (IH (i0 + 1)) as [cs ->]; [|eauto].
  intros k Hk. destruct (H (S k) ltac:(lia)) as (nm' & H1 & H2).
  exists nm'. replace (i0 + 1 + Z.of_nat k) with (i0 + Z.of_nat (S k)) by lia.
  auto.
Qed.

(** X2.  [ExtractContigsFromFai] returns a catalog exactly when the index
    reports a non-negative number of sequences and, for each of them, a
    non-null name whose length is not negative; in every other case the
    process is terminated (a failed [CHECK] or the vector's constructor
    throwing), never an error status. *)
Theorem ExtractContigsFromFai_succeeds_iff (faidx : faidx_t) :
  ((exists contigs, ExtractContigsFromFai faidx = Value contigs)
   <-> (0 <= faidx_nseq faidx
        /\ forall i, 0 <= i < faidx_nseq faidx ->
             exists nm, faidx_iseq faidx i = Some nm
                        /\ 0 <= faidx_seq_len faidx nm))
  /\ ((forall contigs, ExtractContigsFromFai faidx <> Value contigs)
      -> ExtractContigsFromFai faidx = Die).
Proof.
  split; [split|].
  - intros [contigs E].
    unfold ExtractContigsFromFai in E.
    destruct (Z.ltb_spec (faidx_nseq faidx) 0) as [|Hn]; [discriminate|].
    split; [exact Hn|]. intros i Hi.
    destruct (extract_contigs_entries _ _ _ _ E) as [_ Hk].
    destruct (Hk (Z.to_nat i) ltac:(lia)) as (nm & H1 & H2 & _).
    exists nm. rewrite Z.add_0_l, Z2Nat.id in H1 by lia. auto.
  - intros [Hn H]. unfold ExtractContigsFromFai.
    destruct (Z.ltb_spec (faidx_nseq faidx) 0); [lia|].
    apply extract_contigs_succeeds. intros k Hk. apply H. lia.
  - intros H. unfold ExtractContigsFromFai in *.
    destruct (faidx_nseq faidx <? 0); [reflexivity|].
    destruct (extract_contigs faidx 0 _) as [cs|c|] eqn:E.
    + now destruct (H cs).
    + now apply extract_contigs_never_fails in E.
    + reflexivity.
Qed.

(** ** Opening and destroying *)

(** X3.  [FromFile] answers NotFound exactly when the index loader, asked
    for the FASTA, its index and the [.gzi] file next to the FASTA, returns
    null; it has no other error status.  A reader it returns holds the
    loaded index, is open, has an empty cache slot, keeps the path and the
    cache size it was given, and its catalog is the one extracted from the
    index. *)
Theorem FromFile_result (fai_load3_x : fai_loader)
    (fasta_path fai_path : string) (cache_size_bases : Z) :
  (forall code,
     FromFile fai_load3_x fasta_path fai_path cache_size_bases = Failure code
     <-> code = NotFound
         /\ fai_load3_x fasta_path fai_path (fasta_path ++ ".gzi")%string 0
            = None)
  /\ (forall r,
        FromFile fai_load3_x fasta_path fai_path cache_size_bases = Value r ->
        exists faidx,
          fai_load3_x fasta_path fai_path (fasta_path ++ ".gzi")%string 0
          = Some faidx
          /\ r = MakeReader fasta_path (Some faidx) (contigs_ r)
                            cache_size_bases "" None
          /\ ExtractContigsFromFai faidx = Value (contigs_ r)).
Proof.
  unfold FromFile, new_IndexedFastaReader, ExtractContigsFromFai.
  destruct (fai_load3_x fasta_path fai_path _ 0) as [faidx|].
  - split.
    + intros code. split; [|intros [_ H]; discriminate].
      destruct (faidx_nseq faidx <? 0); [discriminate|].
      destruct (extract_contigs faidx 0 _) as [cs|c|] eqn:E;
        try discriminate.
      now apply extract_contigs_never_fails in E.
    + intros r. destruct (faidx_nseq faidx <? 0) eqn:Hn; [discriminate|].
      destruct (extract_contigs faidx 0 _) as [cs|c|] eqn:E;
        try discriminate.
      intros [= <-]. exists faidx. repeat split. simpl.
      now rewrite ?Hn, ?E.
  - split.
    + intros code. split; [intros [= <-]; auto | intros [-> _]; reflexivity].
    + discriminate.
Qed.

(** X4.  Destroying a reader never terminates the process, whatever state
    the reader is in, and leaves it closed with path, catalog, cache size
    and cache slot untouched: [Close] cannot fail on a reader that is open,
    and is not called on one that is closed. *)
Theorem destructor_never_aborts (r : IndexedFastaReader) :
  IndexedFastaReader_destructor r = (Value tt, set_faidx r None).
Proof.
  unfold IndexedFastaReader_destructor, Close.
  destruct (faidx_ r) as [fa|] eqn:Hfa; [reflexivity|].
  f_equal. destruct r. simpl in *. now subst.
Qed.

(** ** What one [GetBases] call can do *)

(** Every way a call can end: nothing touched and no store call; one
    failed store call and nothing touched; one successful store call in
    uncached mode and nothing touched; or one successful store call in
    cached mode, on a miss, that installs the fetched window. *)
Lemma GetBases_cases (r : IndexedFastaReader) (range : Range)
    (v : Result string) (r' : IndexedFastaReader) (calls : list FetchCall) :
  GetBases r range = (v, r', calls) ->
  (r' = r /\ calls = [])
  \/ exists fa w,
       faidx_ r = Some fa
       /\ IsValidInterval r range = true
       /\ start range <> end_ range
       /\ calls = [MakeFetchCall (reference_name w) (start w) (end_ w - 1)]
       /\ ((use_cache r range = false /\ w = range /\ r' = r)
           \/ (use_cache r range = true
               /\ cache_lookup r range = None
               /\ expansion_window r range = Some w
               /\ (r' = r
                   \/ (0 < snd (faidx_fetch_seq fa (reference_name w)
                                  (start w) (end_ w - 1))
                       /\ r' = set_cache r
                                 (AsciiStrToUpper
                                    (fst (faidx_fetch_seq fa
                                            (reference_name w) (start w)
                                            (end_ w - 1))))
                                 w)))).
Proof.
  unfold GetBases. destruct (faidx_ r) as [fa|] eqn:Hfa.
  2:{ intros [= <- <- <-]. auto. }
  destruct (IsValidInterval r range) eqn:Hv; simpl negb; cbv iota.
  2:{ intros [= <- <- <-]. auto. }
  destruct (Z.eqb_spec (start range) (end_ range)) as [|Hne].
  { intros [= <- <- <-]. auto. }
  destruct (use_cache r range) eqn:U.
  - destruct (cache_lookup r range) as [w|] eqn:L.
    { destruct (substr _ _ _); intros [= <- <- <-]; auto. }
    destruct (expansion_window r range) as [w|] eqn:W.
    2:{ intros [= <- <- <-]. auto. }
    open_fetch.
    destruct (faidx_fetch_seq fa (reference_name w) (start w) (end_ w - 1))
      as [bases len] eqn:F.
    destruct (Z.leb_spec len 0) as [|Hlen].
    + intros [= <- <- <-]. right. exists fa, w.
      repeat (split; [assumption || reflexivity|]). right. auto.
    + rewrite U. simpl small_read_cache_.
      assert (Hdone :
                (0 < snd (bases, len)
                 /\ set_cache r (AsciiStrToUpper bases) w
                    = set_cache r (AsciiStrToUpper (fst (bases, len))) w))
        by (simpl; split; [lia | reflexivity]).
      destruct (substr _ _ _); intros [= <- <- <-]; right; exists fa, w;
        (repeat (split; [assumption || reflexivity|])); right;
        (repeat (split; [assumption || reflexivity|])); right;
        rewrite F; exact Hdone.
  - open_fetch.
    destruct (faidx_fetch_seq fa (reference_name range) (start range)
                (end_ range - 1)) as [bases len].
    destruct (len <=? 0).
    + intros [= <- <- <-]. right. exists fa, range.
      repeat (split; [assumption || reflexivity|]). left. auto.
    + rewrite U. intros [= <- <- <-]. right. exists fa, range.
      repeat (split; [assumption || reflexivity|]). left. auto.
Qed.

Lemma expansion_window_inv (r : IndexedFastaReader) (range w : Range) :
  expansion_window r range = Some w ->
  IsValidInterval r w = true
  /\ reference_name w = reference_name range
  /\ start w = start range
  /\ exists c, Contig r (reference_name range) = Value c
       /\ end_ w = Z.min (int64_wrap (start range + cache_size_bases_ r))
                         (n_bases c).
Proof.
  unfold expansion_window.
  destruct (Contig r (reference_name range)) as [c| |]; try discriminate.
  destruct (IsValidInterval r _) eqn:Hv; [|discriminate].
  intros [= <-]. simpl. repeat split; [exact Hv|]. exists c. auto.
Qed.

(** X5.  A [GetBases] call never opens or closes the reader and never
    alters its path, catalog or cache size; it calls the store at most
    once; and when it makes no store call it leaves the reader exactly as
    it was. *)
Theorem GetBases_footprint (r : IndexedFastaReader) (range : Range) :
  let r' := snd (fst (GetBases r range)) in
  let calls := snd (GetBases r range) in
  fasta_path_ r' = fasta_path_ r
  /\ faidx_ r' = faidx_ r
  /\ contigs_ r' = contigs_ r
  /\ cache_size_bases_ r' = cache_size_bases_ r
  /\ (List.length calls <= 1)%nat
  /\ (calls = [] -> r' = r).
Proof.
  intros r' calls.
  destruct (GetBases_frame r range) as (F0 & F1 & F2 & F3).
  repeat (split; [assumption|]).
  subst r' calls. destruct (GetBases r range) as [[v r1] calls] eqn:E.
  simpl. destruct (GetBases_cases _ _ _ _ _ E)
    as [[-> ->]|(fa & w & _ & _ & _ & -> & _)].
  - simpl. split; [lia | reflexivity].
  - simpl. split; [lia | discriminate].
Qed.

(** X6.  Every region [GetBases] asks the store for lies inside a catalog
    contig and is not empty: the call is for the requested contig, begins
    at the requested start, and its inclusive bounds satisfy [0 <= beg <=
    end < n_bases]; in cached mode it spans at most [cache_size_bases_]
    bases and covers the request. *)
Theorem GetBases_fetches_in_bounds (r : IndexedFastaReader) (range : Range)
    (call : FetchCall) :
  ints_ok r ->
  In call (snd (GetBases r range)) ->
  exists c,
    Contig r (fc_name call) = Value c
    /\ fc_name call = reference_name range
    /\ fc_beg call = start range
    /\ 0 <= fc_beg call <= fc_end call
    /\ fc_end call < n_bases c
    /\ end_ range - 1 <= fc_end call
    /\ (use_cache r range = true ->
        fc_end call - fc_beg call + 1 <= cache_size_bases_ r).
Proof.
  intros Hints Hin.
  destruct (GetBases r range) as [[v r1] calls] eqn:E. simpl in Hin.
  destruct (GetBases_cases _ _ _ _ _ E)
    as [[_ ->]|(fa & w & Hfa & Hv & Hne & -> & Hmode)]; [destruct Hin|].
  destruct Hin as [<-|[]]. simpl.
  destruct (IsValidInterval_inv _ _ Hv) as (c & HC & Hse & Hen).
  destruct Hmode as [(U & -> & _)|(U & _ & W & _)].
  - exists c. rewrite U. repeat split; try assumption; try lia.
  - destruct (use_cache_true _ _ U) as [Hpos Hfit].
    rewrite (expansion_window_exact r range c Hints) in W
      by (assumption || lia).
    injection W as <-. simpl. exists c.
    repeat split; try assumption; lia.
Qed.

Lemma GetBases_fetches_in_bounds_witness :
  exists c,
    Contig reader_holding_chr1 "chr1" = Value c
    /\ "chr1" = "chr1"
    /\ 3 = 3
    /\ 0 <= 3 <= 6
    /\ 6 < n_bases c
    /\ 5 - 1 <= 6
    /\ (use_cache reader_holding_chr1 (MakeRange "chr1" 3 5) = true ->
        6 - 3 + 1 <= 4).
Proof.
  apply (GetBases_fetches_in_bounds reader_holding_chr1
           (MakeRange "chr1" 3 5) (MakeFetchCall "chr1" 3 6)).
  - split; [vm_compute; discriminate|].
    repeat constructor; vm_compute; discriminate.
  - simpl. left. reflexivity.
Defined.

(** X7.  The cache slot is rewritten only by a call that is in cached
    mode, finds the request in no cached window, and gets a positive length
    from the store.  What it installs is then a valid interval of the
    requested contig beginning at the request's start, together with the
    upper-cased bases of that one store call; every other call returns the
    reader exactly as it was. *)
Theorem GetBases_installs_only_on_miss (r : IndexedFastaReader)
    (range : Range) :
  let r' := snd (fst (GetBases r range)) in
  r' = r
  \/ exists fa w,
       faidx_ r = Some fa
       /\ use_cache r range = true
       /\ cache_lookup r range = None
       /\ IsValidInterval r w = true
       /\ reference_name w = reference_name range
       /\ start w = start range
       /\ snd (GetBases r range)
          = [MakeFetchCall (reference_name w) (start w) (end_ w - 1)]
       /\ 0 < snd (faidx_fetch_seq fa (reference_name w) (start w)
                     (end_ w - 1))
       /\ cached_range_ r' = Some w
       /\ small_read_cache_ r'
          = AsciiStrToUpper
              (fst (faidx_fetch_seq fa (reference_name w) (start w)
                      (end_ w - 1))).
Proof.
  intros r'. subst r'.
  destruct (GetBases r range) as [[v r1] calls] eqn:E. simpl.
  destruct (GetBases_cases _ _ _ _ _ E)
    as [[-> _]|(fa & w & Hfa & Hv & Hne & -> & Hmode)]; [now left|].
  destruct Hmode as [(_ & _ & ->)|(U & L & W & [->|[Hlen ->]])];
    [now left|now left|].
  right. exists fa, w.
  destruct (expansion_window_inv _ _ _ W) as (Hw & Hnm & Hst & _).
  repeat (split; [assumption || reflexivity|]). reflexivity.
Qed.

Lemma reachable_frame (r0 r : IndexedFastaReader) :
  reachable r0 r ->
  faidx_ r = faidx_ r0 /\ contigs_ r = contigs_ r0
  /\ cache_size_bases_ r = cache_size_bases_ r0.
Proof.
  induction 1 as [|r range Hreach IH]; [auto|].
  destruct (GetBases_frame r range) as (_ & F1 & F2 & F3).
  destruct IH as (I1 & I2 & I3). repeat split; congruence.
Qed.

(** X8.  Start from a reader with an empty slot, over any store at all.
    In every state that [GetBases] calls lead to, a cached window is a
    valid interval of the catalog, is not empty, spans at most
    [cache_size_bases_] bases, and the cached bases hold no lower-case
    letter. *)
Theorem cached_window_within_budget (r0 r : IndexedFastaReader) (w : Range) :
  ints_ok r0 ->
  cached_range_ r0 = None ->
  reachable r0 r ->
  cached_range_ r = Some w ->
  IsValidInterval r w = true
  /\ 0 < end_ w - start w <= cache_size_bases_ r
  /\ all_upper (small_read_cache_ r) = true.
Proof.
  intros Hints Hempty Hreach. revert w.
  induction Hreach as [|r range Hreach IH]; intros w Hw; [congruence|].
  destruct (reachable_frame _ _ Hreach) as (_ & Hcs & Hsz).
  destruct (GetBases r range) as [[v r1] calls] eqn:E. simpl in *.
  destruct (GetBases_cases _ _ _ _ _ E)
    as [[-> _]|(fa & w' & Hfa & Hv & Hne & -> & Hmode)]; [now apply IH|].
  destruct Hmode as [(_ & _ & ->)|(U & L & W & [->|[Hlen ->]])];
    try (now apply IH).
  simpl in Hw. injection Hw as ->.
  destruct (IsValidInterval_inv _ _ Hv) as (c & HC & Hse & Hen).
  destruct (use_cache_true _ _ U) as [Hpos Hfit].
  assert (Hints' : ints_ok r) by now apply (ints_ok_frame r0).
  rewrite (expansion_window_exact r range c Hints') in W
    by (assumption || lia).
  injection W as <-. simpl.
  split; [|split].
  - rewrite (IsValidInterval_contigs r) by reflexivity.
    apply (IsValidInterval_intro r _ c); simpl; (assumption || lia).
  - lia.
  - apply all_upper_AsciiStrToUpper.
Qed.

Lemma cached_window_within_budget_witness :
  IsValidInterval reader_holding_chr2 (MakeRange "chr2" 1 4) = true
  /\ 0 < 4 - 1 <= cache_size_bases_ reader_holding_chr2
  /\ all_upper (small_read_cache_ reader_holding_chr2) = true.
Proof.
  apply (cached_window_within_budget (MemFasta.reader 4) reader_holding_chr2
           (MakeRange "chr2" 1 4)).
  - apply mem_ints_ok. vm_compute. discriminate.
  - reflexivity.
  - apply reach_step, reach_refl.
  - reflexivity.
Defined.

(** X9.  On an open reader, [GetBases] answers InvalidArgument without any
    store call exactly when the interval is malformed: the reference name
    is not in the catalog, the start is negative, the end precedes the
    start, or the end lies beyond the contig's length.  The reader is then
    unchanged. *)
Theorem GetBases_rejects_exactly_the_invalid (r : IndexedFastaReader)
    (fa : faidx_t) (range : Range) :
  faidx_ r = Some fa ->
  (exists r', GetBases r range = (Failure InvalidArgument, r', []))
  <-> (Contig r (reference_name range) = Failure NotFound
       \/ start range < 0
       \/ end_ range < start range
       \/ exists c, Contig r (reference_name range) = Value c
                    /\ n_bases c < end_ range).
Proof.
  intros Hfa. split.
  - intros [r' E].
    destruct (IsValidInterval r range) eqn:Hv.
    + exfalso.
      destruct (Z.eq_dec (start range) (end_ range)) as [Heq|Hne].
      * rewrite (GetBases_shortcut r fa range Hfa Hv Heq) in E. discriminate.
      * rewrite (GetBases_unfold r fa range Hfa Hv Hne) in E.
        destruct (use_cache r range).
        -- destruct (cache_lookup r range).
           ++ destruct (substr _ _ _); discriminate.
           ++ destruct (expansion_window r range) as [w|]; [|discriminate].
              unfold fetch_and_store in E.
              destruct (faidx_fetch_seq _ _ _ _) as [bases len].
              destruct (len <=? 0); [discriminate|].
              destruct (use_cache r range); [|discriminate].
              destruct (substr _ _ _); discriminate.
        -- unfold fetch_and_store in E.
           destruct (faidx_fetch_seq _ _ _ _) as [bases len].
           destruct (len <=? 0); [discriminate|].
           destruct (use_cache r range); [|discriminate].
           destruct (substr _ _ _); discriminate.
    + unfold IsValidInterval, Contig in *.
      destruct (find _ (contigs_ r)) as [c|]; [|now left].
      right.
      destruct (Z.leb_spec 0 (start range)); [|now left].
      destruct (Z.leb_spec (start range) (end_ range)); [|now right; left].
      destruct (Z.leb_spec (end_ range) (n_bases c)); [discriminate|].
      right. right. exists c. auto.
  - intros H. exists r.
    assert (Hv : IsValidInterval r range = false).
    { unfold IsValidInterval.
      destruct H as [->|[H|[H|(c & -> & H)]]]; [reflexivity| | |].
      - destruct (Contig r (reference_name range)); try reflexivity.
        destruct (Z.leb_spec 0 (start range)); [lia|reflexivity].
      - destruct (Contig r (reference_name range)); try reflexivity.
        destruct (Z.leb_spec (start range) (end_ range)); [lia|].
        now rewrite andb_false_r.
      - destruct (Z.leb_spec (end_ range) (n_bases c)); [lia|].
        now rewrite andb_false_r. }
    unfold GetBases. now rewrite Hfa, Hv.
Qed.

Lemma GetBases_rejects_exactly_the_invalid_witness :
  (exists r', GetBases (MemFasta.reader 4) (MakeRange "chr1" 3 9)
              = (Failure InvalidArgument, r', []))
  <-> (Contig (MemFasta.reader 4) "chr1" = Failure NotFound
       \/ 3 < 0
       \/ 9 < 3
       \/ exists c, Contig (MemFasta.reader 4) "chr1" = Value c
                    /\ n_bases c < 9).
Proof.
  apply (GetBases_rejects_exactly_the_invalid (MemFasta.reader 4)
           (MemFasta.faidx MemFasta.seqs) (MakeRange "chr1" 3 9)).
  reflexivity.
Defined.

(** ** Caching is transparent *)

Lemma GetBases_invalid (r : IndexedFastaReader) (fa : faidx_t)
    (range : Range) :
  faidx_ r = Some fa -> IsValidInterval r range = false ->
  GetBases r range = (Failure InvalidArgument, r, []).
Proof. intros Hfa Hv. unfold GetBases. now rewrite Hfa, Hv. Qed.

(** X13.  Two open readers on the same store and catalog, whatever their
    cache sizes and whatever (coherent) window each holds, give the same
    answers to any sequence of requests, valid or not: the cache changes the
    store traffic, never what the caller reads.  In particular a caching
    reader answers like one with caching off. *)
Theorem caching_is_transparent (fa : faidx_t) (content : string -> string)
    (ranges : list Range) :
  forall r1 r2 : IndexedFastaReader,
    faidx_ r1 = Some fa -> faidx_ r2 = Some fa ->
    contigs_ r2 = contigs_ r1 ->
    ints_ok r1 -> ints_ok r2 ->
    store_serves r1 fa content ->
    cache_coherent r1 content -> cache_coherent r2 content ->
    fst (fst (GetBases_all r1 ranges)) = fst (fst (GetBases_all r2 ranges)).
Proof.
  induction ranges as [|range rest IH];
    intros r1 r2 Hfa1 Hfa2 Hcs Hi1 Hi2 Hs Hc1 Hc2; [reflexivity|].
  simpl.
  pose proof (store_serves_contigs r1 r2 fa content Hcs Hs) as Hs2.
  destruct (GetBases_frame r1 range) as (_ & A1 & A2 & A3).
  destruct (GetBases_frame r2 range) as (_ & B1 & B2 & B3).
  assert (Hstep : exists v r1' r2' c1 c2,
             GetBases r1 range = (v, r1', c1)
             /\ GetBases r2 range = (v, r2', c2)
             /\ cache_coherent r1' content /\ cache_coherent r2' content).
  { destruct (IsValidInterval r1 range) eqn:Hv.
    - destruct (GetBases_serves r1 fa content range Hfa1 Hi1 Hs Hc1 Hv)
        as (r1' & c1 & E1 & Hc1').
      rewrite <- (IsValidInterval_contigs r1 r2 range Hcs) in Hv.
      destruct (GetBases_serves r2 fa content range Hfa2 Hi2 Hs2 Hc2 Hv)
        as (r2' & c2 & E2 & Hc2').
      eexists _, r1', r2', c1, c2. eauto.
    - rewrite (GetBases_invalid r1 fa range Hfa1 Hv).
      rewrite <- (IsValidInterval_contigs r1 r2 range Hcs) in Hv.
      rewrite (GetBases_invalid r2 fa range Hfa2 Hv).
      eexists _, r1, r2, [], []. eauto. }
  destruct Hstep as (v & r1' & r2' & c1 & c2 & E1 & E2 & Hc1' & Hc2').
  rewrite E1, E2 in *. simpl in A1, A2, A3, B1, B2, B3.
  specialize (IH r1' r2').
  destruct (GetBases_all r1' rest) as [[vs1 r1''] cs1].
  destruct (GetBases_all r2' rest) as [[vs2 r2''] cs2].
  simpl in *. f_equal. apply IH; try congruence.
  - now apply (ints_ok_frame r1).
  - now apply (ints_ok_frame r2).
  - now apply (store_serves_contigs r1).
Qed.

Lemma caching_is_transparent_witness :
  fst (fst (GetBases_all (MemFasta.reader 4)
              [MakeRange "chr1" 0 2; MakeRange "chr1" 1 3;
               MakeRange "chr2" 0 9; MakeRange "chr1" 2 6]))
  = fst (fst (GetBases_all (MemFasta.reader 0)
                [MakeRange "chr1" 0 2; MakeRange "chr1" 1 3;
                 MakeRange "chr2" 0 9; MakeRange "chr1" 2 6])).
Proof.
  apply (caching_is_transparent (MemFasta.faidx MemFasta.seqs)
           MemFasta.content).
  - reflexivity.
  - reflexivity.
  - reflexivity.
  - apply mem_ints_ok. vm_compute. discriminate.
  - apply mem_ints_ok. vm_compute. discriminate.
  - apply mem_store_serves.
  - exact I.
  - exact I.
Defined.

(** ** More on iteration *)

Lemma run_ops_contigs (ops : list Op) :
  forall r, contigs_ (run_ops r ops) = contigs_ r.
Proof.
  unfold run_ops. induction ops as [|op ops IH]; intros r; [reflexivity|].
  simpl. rewrite IH. destruct op as [range|]; simpl.
  - now destruct (GetBases_frame r range) as (_ & _ & F & _).
  - unfold Close. now destruct (faidx_ r).
Qed.

(** X12.  Once an iterable has run past the last catalog entry it stays
    exhausted: whatever [GetBases] and [Close] calls are made on the reader
    in between -- even closing it -- [Next] keeps answering [false],
    leaves the record, the iterable and the reader alone, and never calls
    the store. *)
Theorem Next_stays_exhausted (it : IndexedFastaReaderIterable)
    (r : IndexedFastaReader) (ops : list Op) (out : GenomeReferenceRecord) :
  reader_attached it = true ->
  (List.length (contigs_ r) <= pos_ it)%nat ->
  Next it (run_ops r ops) out = (Value false, out, it, run_ops r ops, []).
Proof.
  intros Ha Hle. apply Next_at_end; [exact Ha|].
  now rewrite run_ops_contigs.
Qed.

Lemma Next_stays_exhausted_witness :
  Next (MakeIterable true 2)
       (run_ops (MemFasta.reader 4) [OpGetBases (MakeRange "chr1" 0 2); OpClose])
       ("chr2", "TTAC")
  = (Value false, ("chr2", "TTAC"), MakeIterable true 2,
     run_ops (MemFasta.reader 4) [OpGetBases (MakeRange "chr1" 0 2); OpClose],
     []).
Proof.
  apply (Next_stays_exhausted (MakeIterable true 2) (MemFasta.reader 4)
           [OpGetBases (MakeRange "chr1" 0 2); OpClose] ("chr2", "TTAC")).
  - reflexivity.
  - simpl. lia.
Defined.

Lemma find_first_of_name (cs : list ContigInfo) (c : ContigInfo) :
  In c cs ->
  exists c', find (fun x => String.eqb (name x) (name c)) cs = Some c'
             /\ In c' cs.
Proof.
  intros Hin.
  destruct (find (fun x => String.eqb (name x) (name c)) cs) as [c'|] eqn:F.
  - exists c'. split; [reflexivity|]. now apply find_some in F.
  - apply (find_none _ _ F) in Hin. simpl in Hin.
    now rewrite String.eqb_refl in Hin.
Qed.

(** X10.  A catalog entry of length zero is iterated without touching the
    store or the cache: on an open reader [Next] yields the entry's name
    with the empty sequence, advances by one, and returns the reader
    unchanged with no store call. *)
Theorem Next_on_empty_contig (it : IndexedFastaReaderIterable)
    (r : IndexedFastaReader) (fa : faidx_t) (out : GenomeReferenceRecord)
    (contig : ContigInfo) :
  faidx_ r = Some fa ->
  ints_ok r ->
  reader_attached it = true ->
  nth_error (contigs_ r) (pos_ it) = Some contig ->
  n_bases contig = 0 ->
  Next it r out
  = (Value true, (name contig, ""), MakeIterable true (S (pos_ it)), r, []).
Proof.
  intros Hfa Hints Ha Hnth Hzero.
  rewrite (Next_at_contig it r out contig Ha Hnth), Hzero, Ha.
  destruct (find_first_of_name (contigs_ r) contig) as (c' & F & Hin');
    [now apply nth_error_In in Hnth|].
  assert (Hv : IsValidInterval r (MakeRange (name contig) 0 0) = true).
  { apply (IsValidInterval_intro r _ c'); simpl.
    - unfold Contig. now rewrite F.
    - lia.
    - destruct Hints as [_ HF]. rewrite Forall_forall in HF.
      apply (HF c' Hin'). }
  now rewrite (GetBases_shortcut r fa _ Hfa Hv).
Qed.

(** A store with one empty contig between two others. *)
Lemma Next_on_empty_contig_witness :
  let empty := MakeContigInfo "chrE" "" 0 1 in
  let r := MakeReader "mem.fa" (Some (MemFasta.faidx MemFasta.seqs))
                      [MemFasta.chr1; empty; MemFasta.chr2] 4 "" None in
  Next (MakeIterable true 1) r ("chr1", "ACGTNNGA")
  = (Value true, ("chrE", ""), MakeIterable true 2, r, []).
Proof.
  apply (Next_on_empty_contig (MakeIterable true 1)
           (MakeReader "mem.fa" (Some (MemFasta.faidx MemFasta.seqs))
              [MemFasta.chr1; MakeContigInfo "chrE" "" 0 1; MemFasta.chr2]
              4 "" None)
           (MemFasta.faidx MemFasta.seqs) ("chr1", "ACGTNNGA")
           (MakeContigInfo "chrE" "" 0 1)).
  - reflexivity.
  - split; [vm_compute; discriminate|].
    repeat constructor; vm_compute; discriminate.
  - reflexivity.
  - reflexivity.
  - reflexivity.
Defined.

(** [GetBases] for a whole catalog entry when the slot holds no window of
    that contig: one store call for the whole contig, none if it is
    empty. *)
Lemma GetBases_whole_contig (r : IndexedFastaReader) (fa : faidx_t)
    (c : ContigInfo) :
  faidx_ r = Some fa -> ints_ok r -> store_exact r fa -> cache_ok r ->
  Contig r (name c) = Value c ->
  (forall w, cached_range_ r = Some w -> reference_name w <> name c) ->
  exists s r',
    GetBases r (MakeRange (name c) 0 (n_bases c))
    = (Value s, r',
       if 0 <? n_bases c then [MakeFetchCall (name c) 0 (n_bases c - 1)]
       else [])
    /\ cache_ok r'
    /\ forall w, cached_range_ r' = Some w ->
         cached_range_ r = Some w \/ reference_name w = name c.
Proof.
  intros Hfa Hints Hst Hok HC Hother.
  pose proof (ints_ok_contig _ _ _ Hints HC) as Hn.
  set (range := MakeRange (name c) 0 (n_bases c)).
  assert (Hv : IsValidInterval r range = true)
    by (apply (IsValidInterval_intro r range c); simpl; (assumption || lia)).
  destruct (GetBases_exact r fa range Hfa Hints Hst Hok Hv)
    as (s & r' & calls & E & _ & _ & Hok').
  exists s, r'. rewrite E.
  destruct (Z.ltb_spec 0 (n_bases c)) as [Hpos|Hzero].
  - rewrite (GetBases_unfold r fa range Hfa Hv) in E by (simpl; lia).
    destruct (use_cache r range) eqn:U.
    + destruct (use_cache_true _ _ U) as [Hcpos Hfit]. simpl in Hfit.
      assert (L : cache_lookup r range = None).
      { unfold cache_lookup. destruct (cached_range_ r) as [w|] eqn:Hw;
          [|reflexivity].
        unfold RangeContains. simpl.
        destruct (String.eqb_spec (name c) (reference_name w)) as [Heq|];
          [|reflexivity].
        now destruct (Hother w eq_refl). }
      rewrite L, (expansion_window_exact r range c Hints) in E
        by (assumption || lia).
      simpl reference_name in E. simpl start in E.
      replace (Z.min (0 + cache_size_bases_ r) (n_bases c))
        with (n_bases c) in E by lia.
      destruct (fetch_and_store_exact r fa range
                  (MakeRange (name c) 0 (n_bases c)) c Hst HC)
        as (bases & _ & E'); [simpl; lia|simpl; lia|].
      rewrite E', U, substr_prefix in E by (simpl; lia).
      injection E as _ <- <-. simpl.
      split; [reflexivity|]. split; [exact Hok'|].
      intros w [= <-]. now right.
    + destruct (fetch_and_store_exact r fa range range c Hst HC)
        as (bases & _ & E'); [simpl; lia|simpl; lia|].
      rewrite E', U in E. injection E as _ <- <-.
      split; [reflexivity|]. split; [exact Hok'|]. auto.
  - rewrite (GetBases_shortcut r fa range Hfa Hv) in E by (simpl; lia).
    injection E as _ <- <-. split; [reflexivity|]. split; [exact Hok'|].
    auto.
Qed.

Lemma drain_calls_suffix (fa : faidx_t) (cs : list ContigInfo) :
  forall (suf pre : list ContigInfo) (r : IndexedFastaReader) (fuel : nat),
    contigs_ r = cs -> cs = (pre ++ suf)%list ->
    faidx_ r = Some fa -> ints_ok r -> store_exact r fa -> cache_ok r ->
    NoDup (map name cs) ->
    (forall w, cached_range_ r = Some w ->
               In (reference_name w) (map name pre)) ->
    (List.length suf < fuel)%nat ->
    exists outs r',
      drain fuel (MakeIterable true (List.length pre)) r
      = Some (outs, Value false, r',
              map (fun c => MakeFetchCall (name c) 0 (n_bases c - 1))
                  (filter (fun c => 0 <? n_bases c) suf)).
Proof.
  induction suf as [|c suf IH]; intros pre r fuel Hcs Hsplit Hfa Hints Hst
                                       Hok Hnd Hseen Hfuel.
  - destruct fuel as [|fuel]; [simpl in Hfuel; lia|].
    exists [], r. simpl. rewrite Next_at_end; [reflexivity|reflexivity|].
    rewrite Hcs, Hsplit, app_nil_r. simpl. lia.
  - destruct fuel as [|fuel]; [simpl in Hfuel; lia|].
    simpl in Hfuel.
    assert (Hin : In c (contigs_ r)).
    { rewrite Hcs, Hsplit. apply in_or_app. right. now left. }
    assert (HC : Contig r (name c) = Value c).
    { unfold Contig. rewrite find_unique_name; [reflexivity| |exact Hin].
      now rewrite Hcs. }
    assert (Hfresh : ~ In (name c) (map name pre)).
    { rewrite Hsplit, map_app in Hnd. simpl in Hnd.
      apply NoDup_remove_2 in Hnd. intros Hp. apply Hnd.
      apply in_or_app. now left. }
    destruct (GetBases_whole_contig r fa c Hfa Hints Hst Hok HC)
      as (s & r1 & HG & Hok1 & Hslot).
    { intros w Hw Heq. apply Hfresh. rewrite <- Heq. now apply Hseen. }
    pose proof (GetBases_frame r (MakeRange (name c) 0 (n_bases c))) as F.
    rewrite HG in F. simpl in F. destruct F as (_ & F1 & F2 & F3).
    destruct (IH (pre ++ [c])%list r1 fuel) as (outs & r2 & HD).
    + congruence.
    + rewrite Hsplit, <- app_assoc. reflexivity.
    + congruence.
    + now apply (ints_ok_frame r).
    + now apply (store_exact_contigs r).
    + exact Hok1.
    + exact Hnd.
    + intros w Hw. rewrite map_app. apply in_or_app.
      destruct (Hslot w Hw) as [Hold| ->]; [left; now apply Hseen|].
      right. now left.
    + lia.
    + rewrite length_app in HD. simpl in HD. rewrite Nat.add_1_r in HD.
      exists ((name c, s) :: outs), r2.
      simpl drain. rewrite (Next_at_contig _ r _ c); [|reflexivity|].
      * rewrite HG. simpl reader_attached. simpl pos_. rewrite HD.
        simpl filter. destruct (0 <? n_bases c); reflexivity.
      * simpl pos_. rewrite Hcs, Hsplit, nth_error_app2, Nat.sub_diag by lia.
        reflexivity.
Qed.

(** X11.  On an open reader with an empty slot, over an exact store and a
    catalog of unique names, a complete iteration makes exactly one store
    call per catalog entry of positive length, for that whole contig
    ([0 .. n_bases - 1]), in catalog order, and none for an entry of
    length zero -- with caching on or off, and however the cache size
    compares with the contig lengths. *)
Theorem Iterate_store_calls (r : IndexedFastaReader) (fa : faidx_t)
    (fuel : nat) :
  faidx_ r = Some fa ->
  ints_ok r ->
  store_exact r fa ->
  cached_range_ r = None ->
  NoDup (map name (contigs_ r)) ->
  (List.length (contigs_ r) < fuel)%nat ->
  exists outs r',
    drain fuel (Iterate r) r
    = Some (outs, Value false, r',
            map (fun c => MakeFetchCall (name c) 0 (n_bases c - 1))
                (filter (fun c => 0 <? n_bases c) (contigs_ r))).
Proof.
  intros Hfa Hints Hst Hempty Hnd Hfuel.
  apply (drain_calls_suffix fa (contigs_ r) (contigs_ r) [] r fuel); auto.
  - unfold cache_ok. now rewrite Hempty.
  - intros w Hw. congruence.
Qed.

Lemma Iterate_store_calls_witness :
  exists outs r',
    drain 3 (Iterate (MemFasta.reader 4)) (MemFasta.reader 4)
    = Some (outs, Value false, r',
            [MakeFetchCall "chr1" 0 7; MakeFetchCall "chr2" 0 3]).
Proof.
  apply (Iterate_store_calls (MemFasta.reader 4)
           (MemFasta.faidx MemFasta.seqs) 3).
  - reflexivity.
  - apply mem_ints_ok. vm_compute. discriminate.
  - apply mem_store_exact.
  - reflexivity.
  - repeat constructor; simpl; intuition discriminate.
  - simpl. lia.
Defined.

(** ** Store traffic of a forward scan *)

Lemma GetBases_all_app (l1 l2 : list Range) :
  forall r,
    GetBases_all r (l1 ++ l2)
    = let '(v1, r1, c1) := GetBases_all r l1 in
      let '(v2, r2, c2) := GetBases_all r1 l2 in
      ((v1 ++ v2)%list, r2, (c1 ++ c2)%list).
Proof.
  induction l1 as [|x l1 IH]; intros r; simpl.
  - now destruct (GetBases_all r l2) as [[v2 r2] c2].
  - destruct (GetBases r x) as [[v r1] c]. rewrite IH.
    destruct (GetBases_all r1 l1) as [[v1 r1'] c1].
    destruct (GetBases_all r1' l2) as [[v2 r2] c2].
    simpl. now rewrite app_assoc.
Qed.

(** Requests inside the cached window, one after the other, are all served
    from the slot. *)
Lemma GetBases_all_hits (r : IndexedFastaReader) (fa : faidx_t) (w : Range)
    (ranges : list Range) :
  faidx_ r = Some fa ->
  cached_range_ r = Some w ->
  0 < cache_size_bases_ r ->
  end_ w - start w <= cache_size_bases_ r ->
  Forall (fun range => RangeContains w range = true
                       /\ IsValidInterval r range = true) ranges ->
  exists vs, GetBases_all r ranges = (vs, r, []).
Proof.
  intros Hfa Hw Hpos Hlen Hall.
  induction Hall as [|range rest [Hc Hv] _ IH]; simpl; [eauto|].
  destruct (GetBases_hit r fa w range Hfa Hw Hc Hv Hpos Hlen) as (v & -> & _).
  destruct IH as [vs ->]. eauto.
Qed.

(** A cached-mode miss under an exact store, computed forwards. *)
Lemma GetBases_miss_exact (r : IndexedFastaReader) (fa : faidx_t)
    (c : ContigInfo) (range : Range) :
  faidx_ r = Some fa -> ints_ok r -> store_exact r fa ->
  Contig r (reference_name range) = Value c ->
  0 <= start range < end_ range -> end_ range <= n_bases c ->
  0 < cache_size_bases_ r ->
  end_ range - start range <= cache_size_bases_ r ->
  cache_lookup r range = None ->
  let w := MakeRange (reference_name range) (start range)
             (Z.min (start range + cache_size_bases_ r) (n_bases c)) in
  exists s bases,
    GetBases r range
    = (Value s, set_cache r bases w,
       [MakeFetchCall (reference_name w) (start w) (end_ w - 1)]).
Proof.
  intros Hfa Hints Hst HC Hse Hen Hpos Hfit L w.
  assert (Hv : IsValidInterval r range = true)
    by (apply (IsValidInterval_intro r range c); (assumption || lia)).
  assert (U : use_cache r range = true).
  { unfold use_cache. apply andb_true_iff. split; lia. }
  rewrite (GetBases_unfold r fa range Hfa Hv) by lia.
  rewrite U, L, (expansion_window_exact r range c Hints)
    by (assumption || lia).
  fold w.
  destruct (fetch_and_store_exact r fa range w c Hst HC)
    as (bases & _ & ->); [simpl; lia|simpl; lia|].
  rewrite U, substr_prefix by lia. eauto.
Qed.

Lemma scan_block (r : IndexedFastaReader) (fa : faidx_t) (c : ContigInfo)
    (nm : string) (k : Z) (q j t : nat) :
  faidx_ r = Some fa -> ints_ok r -> store_exact r fa ->
  Contig r nm = Value c ->
  0 < k -> cache_size_bases_ r = Z.of_nat q * k ->
  (0 < t <= q)%nat ->
  Z.of_nat (j + t) * k <= n_bases c ->
  (forall w, cached_range_ r = Some w -> reference_name w = nm ->
             end_ w <= Z.of_nat j * k) ->
  let w := MakeRange nm (Z.of_nat j * k)
             (Z.min (Z.of_nat j * k + cache_size_bases_ r) (n_bases c)) in
  exists vs bases,
    GetBases_all r (scan_ranges nm k j t)
    = (vs, set_cache r bases w,
       [MakeFetchCall nm (start w) (end_ w - 1)]).
Proof.
  intros Hfa Hints Hst HC Hk Hsize Ht Hfits Hslot w.
  destruct t as [|t]; [lia|].
  unfold scan_ranges. cbn [seq map GetBases_all].
  assert (Hq : k <= cache_size_bases_ r) by nia.
  assert (Hend : Z.of_nat (S j) * k <= n_bases c) by nia.
  assert (Hj : 0 <= Z.of_nat j * k) by nia.
  assert (Hstep : Z.of_nat (S j) * k = Z.of_nat j * k + k) by nia.
  destruct (GetBases_miss_exact r fa c
              (MakeRange nm (Z.of_nat j * k) (Z.of_nat (S j) * k))
              Hfa Hints Hst HC)
    as (s & bases & E);
    try (cbn [start end_ reference_name]; lia).
  { unfold cache_lookup. destruct (cached_range_ r) as [w0|] eqn:Hw0;
      [|reflexivity].
    unfold RangeContains. cbn [start end_ reference_name].
    destruct (String.eqb_spec nm (reference_name w0)) as [Heq|];
      [|reflexivity].
    specialize (Hslot w0 eq_refl (eq_sym Heq)).
    destruct (Z.leb_spec (Z.of_nat (S j) * k) (end_ w0)); [lia|].
    now rewrite andb_false_r. }
  cbn [start end_ reference_name] in E. fold w in E. rewrite E.
  destruct (GetBases_all_hits (set_cache r bases w) fa w
              (map (fun i => MakeRange nm (Z.of_nat i * k)
                                (Z.of_nat (S i) * k)) (seq (S j) t)))
    as [vs ->]; [exact Hfa|reflexivity|simpl; lia|simpl; lia| |].
  - apply Forall_forall. intros range Hin.
    apply in_map_iff in Hin as (i & <- & Hi). apply in_seq in Hi.
    assert (Hi1 : Z.of_nat j * k <= Z.of_nat i * k) by nia.
    assert (Hi2 : Z.of_nat (S i) * k <= Z.of_nat (j + S t) * k) by nia.
    assert (Hi3 : Z.of_nat (j + S t) * k
                  <= Z.of_nat j * k + cache_size_bases_ r) by nia.
    assert (Hi4 : Z.of_nat (S i) * k = Z.of_nat i * k + k) by nia.
    split.
    + unfold RangeContains. cbn [start end_ reference_name w].
      rewrite String.eqb_refl.
      apply andb_true_iff. split; [apply Z.leb_le; lia|].
      apply Z.leb_le. lia.
    + rewrite (IsValidInterval_contigs r) by reflexivity.
      apply (IsValidInterval_intro r _ c);
        cbn [start end_ reference_name]; (assumption || lia).
  - exists (Value s :: vs), bases. reflexivity.
Qed.

Lemma scan_ranges_app (nm : string) (k : Z) (j t u : nat) :
  scan_ranges nm k j (t + u)
  = (scan_ranges nm k j t ++ scan_ranges nm k (j + t) u)%list.
Proof. unfold scan_ranges. now rewrite seq_app, map_app. Qed.

Lemma ceil_div_small (m q : nat) :
  (0 < m <= q)%nat -> ((m + q - 1) / q = 1)%nat.
Proof.
  intros H. symmetry. apply (Nat.div_unique _ _ 1 (m - 1)); lia.
Qed.

Lemma ceil_div_step (m q : nat) :
  (0 < q < m)%nat -> ((m + q - 1) / q = S ((m - q + q - 1) / q))%nat.
Proof.
  intros H.
  replace (m + q - 1)%nat with ((m - q + q - 1) + 1 * q)%nat by lia.
  rewrite Nat.div_add by lia. lia.
Qed.

(** The store calls of a scan that starts on a window boundary. *)
Lemma scan_calls (fa : faidx_t) (c : ContigInfo) (nm : string) (k : Z)
    (q : nat) :
  0 < k -> (0 < q)%nat ->
  forall (m i : nat) (r : IndexedFastaReader),
    faidx_ r = Some fa -> ints_ok r -> store_exact r fa ->
    Contig r nm = Value c ->
    cache_size_bases_ r = Z.of_nat q * k ->
    Z.of_nat (i * q + m) * k <= n_bases c ->
    (forall w, cached_range_ r = Some w -> reference_name w = nm ->
               end_ w <= Z.of_nat (i * q) * k) ->
    snd (GetBases_all r (scan_ranges nm k (i * q) m))
    = map (fun b =>
             MakeFetchCall nm (Z.of_nat b * (Z.of_nat q * k))
               (Z.min (Z.of_nat (S b) * (Z.of_nat q * k)) (n_bases c) - 1))
          (seq i ((m + q - 1) / q)).
Proof.
  intros Hk Hq m. induction m as [m IH] using lt_wf_ind.
  intros i r Hfa Hints Hst HC Hsize Hfits Hslot.
  destruct m as [|m'].
  { simpl. now rewrite Nat.div_small by lia. }
  set (m := S m') in *.
  set (t := Nat.min m q).
  assert (Hsplit : scan_ranges nm k (i * q) m
                   = (scan_ranges nm k (i * q) t
                      ++ scan_ranges nm k (i * q + t) (m - t))%list).
  { rewrite <- scan_ranges_app. f_equal. lia. }
  rewrite Hsplit, GetBases_all_app.
  destruct (scan_block r fa c nm k q (i * q) t Hfa Hints Hst HC Hk Hsize)
    as (vs & bases & ->); [lia|nia|exact Hslot|].
  set (w := MakeRange nm _ _).
  assert (Hstart : Z.of_nat (i * q) * k = Z.of_nat i * (Z.of_nat q * k))
    by nia.
  assert (Hnext : Z.of_nat (i * q) * k + Z.of_nat q * k
                  = Z.of_nat (S i) * (Z.of_nat q * k)) by nia.
  assert (Hcall : MakeFetchCall nm (start w) (end_ w - 1)
                  = MakeFetchCall nm (Z.of_nat i * (Z.of_nat q * k))
                      (Z.min (Z.of_nat (S i) * (Z.of_nat q * k))
                             (n_bases c) - 1)).
  { unfold w. cbn [start end_]. now rewrite Hsize, Hnext, Hstart. }
  rewrite Hcall.
  destruct (Nat.le_gt_cases m q) as [Hle|Hgt].
  - replace (m - t)%nat with 0%nat by lia.
    rewrite ceil_div_small by lia. reflexivity.
  - replace t with q by lia.
    replace (i * q + q)%nat with (S i * q)%nat by lia.
    assert (IH' : snd (GetBases_all (set_cache r bases w)
                         (scan_ranges nm k (S i * q) (m - q)))
                  = map (fun b =>
                           MakeFetchCall nm (Z.of_nat b * (Z.of_nat q * k))
                             (Z.min (Z.of_nat (S b) * (Z.of_nat q * k))
                                    (n_bases c) - 1))
                        (seq (S i) ((m - q + q - 1) / q))).
    { apply (IH (m - q)%nat ltac:(lia) (S i) (set_cache r bases w)).
      - exact Hfa.
      - now apply (ints_ok_frame r).
      - now apply (store_exact_contigs r).
      - exact HC.
      - exact Hsize.
      - replace (S i * q + (m - q))%nat with (i * q + m)%nat by lia.
        exact Hfits.
      - intros w0 [= <-] _. unfold w. cbn [end_].
        replace (Z.of_nat (S i * q) * k)
          with (Z.of_nat (i * q) * k + Z.of_nat q * k) by nia.
        lia. }
    rewrite (ceil_div_step m q) by lia.
    destruct (GetBases_all (set_cache r bases w)
                (scan_ranges nm k (S i * q) (m - q))) as [[vs2 r2] cs2].
    cbn [snd] in IH'. cbn [snd app seq map]. now rewrite IH'.
Qed.

(** X14.  A client reads the first [m] consecutive tiles of [k] bases of a
    contig, on an open reader with an empty slot over an exact store, the
    cache size being [q] tiles.  Then the store is called once per [q]
    tiles, that is ceil(m / q) times in all, and call number [b] asks for
    the window [[b * cache_size, min((b + 1) * cache_size, n_bases))]. *)
Theorem forward_scan_store_calls (r : IndexedFastaReader) (fa : faidx_t)
    (c : ContigInfo) (nm : string) (k : Z) (q m : nat) :
  faidx_ r = Some fa ->
  ints_ok r ->
  store_exact r fa ->
  cached_range_ r = None ->
  Contig r nm = Value c ->
  0 < k -> (0 < q)%nat ->
  cache_size_bases_ r = Z.of_nat q * k ->
  Z.of_nat m * k <= n_bases c ->
  snd (GetBases_all r (scan_ranges nm k 0 m))
  = map (fun b =>
           MakeFetchCall nm (Z.of_nat b * cache_size_bases_ r)
             (Z.min (Z.of_nat (S b) * cache_size_bases_ r) (n_bases c) - 1))
        (seq 0 ((m + q - 1) / q))
  /\ List.length (snd (GetBases_all r (scan_ranges nm k 0 m)))
     = ((m + q - 1) / q)%nat.
Proof.
  intros Hfa Hints Hst Hempty HC Hk Hq Hsize Hfits.
  assert (E : snd (GetBases_all r (scan_ranges nm k 0 m))
              = map (fun b =>
                       MakeFetchCall nm (Z.of_nat b * cache_size_bases_ r)
                         (Z.min (Z.of_nat (S b) * cache_size_bases_ r)
                                (n_bases c) - 1))
                    (seq 0 ((m + q - 1) / q))).
  { rewrite Hsize.
    apply (scan_calls fa c nm k q Hk Hq m 0 r); auto.
    intros w Hw. congruence. }
  split; [exact E|]. now rewrite E, length_map, length_seq.
Qed.

Lemma forward_scan_store_calls_witness :
  snd (GetBases_all (MemFasta.reader 4) (scan_ranges "chr1" 2 0 3))
  = [MakeFetchCall "chr1" 0 3; MakeFetchCall "chr1" 4 7]
  /\ List.length
       (snd (GetBases_all (MemFasta.reader 4) (scan_ranges "chr1" 2 0 3)))
     = 2%nat.
Proof.
  apply (forward_scan_store_calls (MemFasta.reader 4)
           (MemFasta.faidx MemFasta.seqs) MemFasta.chr1 "chr1" 2 2 3).
  - reflexivity.
  - apply mem_ints_ok. vm_compute. discriminate.
  - apply mem_store_exact.
  - reflexivity.
  - reflexivity.
  - lia.
  - lia.
  - reflexivity.
  - simpl. lia.
Defined.

(** ** The VCF writer: open modes *)

Lemma append_nil_r (s : string) : (s ++ "")%string = s.
Proof. induction s; simpl; congruence. Qed.

Lemma append_assoc (a b c : string) :
  ((a ++ b) ++ c)%string = (a ++ (b ++ c))%string.
Proof. induction a; simpl; congruence. Qed.

Lemma length_append (a b : string) :
  String.length (a ++ b) = (String.length a + String.length b)%nat.
Proof. induction a; simpl; congruence. Qed.

Lemma substring_all (s : string) : substring 0 (String.length s) s = s.
Proof. induction s; simpl; congruence. Qed.

Lemma substring_skip_append (p t : string) (m : nat) :
  substring (String.length p) m (p ++ t) = substring 0 m t.
Proof. induction p; simpl; auto. Qed.

Lemma substring_split (s : string) (n : nat) :
  (n <= String.length s)%nat ->
  s = (substring 0 n s ++ substring n (String.length s - n) s)%string.
Proof.
  revert n; induction s as [|c s IH]; intros [|n] H; simpl in *;
    try reflexivity; try lia.
  - now rewrite substring_all.
  - f_equal. apply IH. lia.
Qed.

(** [EndsWith s t] holds exactly when [s] is some string followed by
    [t]. *)
Lemma EndsWith_iff (s t : string) :
  VcfWriter.EndsWith s t = true <-> exists p, s = (p ++ t)%string.
Proof.
  unfold VcfWriter.EndsWith. split.
  - intros H. apply andb_true_iff in H as [Hlen Heq].
    apply Nat.leb_le in Hlen. apply String.eqb_eq in Heq.
    exists (substring 0 (String.length s - String.length t) s).
    pose proof (substring_split s (String.length s - String.length t)
                  ltac:(lia)) as Hs.
    replace (String.length s - (String.length s - String.length t))%nat
      with (String.length t) in Hs by lia.
    now rewrite Heq in Hs.
  - intros [p ->]. rewrite length_append.
    apply andb_true_iff. split; [apply Nat.leb_le; lia|].
    replace (String.length p + String.length t - String.length t)%nat
      with (String.length p) by lia.
    rewrite substring_skip_append, substring_all. apply String.eqb_refl.
Qed.

Lemma last_char_append (p t : string) :
  t <> "" -> VcfWriter.last_char (p ++ t) = VcfWriter.last_char t.
Proof.
  intros Ht. induction p as [|c p IH]; [reflexivity|].
  simpl. destruct (p ++ t)%string eqn:E; [|exact IH].
  destruct p; simpl in E; [now destruct Ht | discriminate].
Qed.

(** X15.  The open mode is decided by the file name's ending, and the
    three endings cannot shadow one another: a name gets the uncompressed
    BCF mode [wbu] exactly when it ends in [.bcf], the compressed BCF mode
    [wb] exactly when it ends in [.bcf.gz], the compressed VCF mode [wz]
    exactly when it ends in [.gz] but not in [.bcf.gz], and plain [w]
    exactly when it ends in neither [.bcf] nor [.gz]. *)
Theorem GetOpenMode_by_suffix (file_path : string) :
  (VcfWriter.GetOpenMode file_path = "wbu"
   <-> exists p, file_path = (p ++ ".bcf")%string)
  /\ (VcfWriter.GetOpenMode file_path = "wb"
      <-> exists p, file_path = (p ++ ".bcf.gz")%string)
  /\ (VcfWriter.GetOpenMode file_path = "wz"
      <-> (exists p, file_path = (p ++ ".gz")%string)
          /\ ~ exists p, file_path = (p ++ ".bcf.gz")%string)
  /\ (VcfWriter.GetOpenMode file_path = "w"
      <-> (~ exists p, file_path = (p ++ ".bcf")%string)
          /\ ~ exists p, file_path = (p ++ ".gz")%string).
Proof.
  assert (Hexcl : (exists p, file_path = (p ++ ".bcf")%string) ->
                  (exists p, file_path = (p ++ ".gz")%string) -> False).
  { intros [p Hp] [p' Hp'].
    assert (L : VcfWriter.last_char (p ++ ".bcf")
                = VcfWriter.last_char (p' ++ ".gz")) by congruence.
    rewrite !last_char_append in L by discriminate. discriminate L. }
  assert (Hgz : (exists p, file_path = (p ++ ".bcf.gz")%string) ->
                exists p, file_path = (p ++ ".gz")%string).
  { intros [p ->]. exists (p ++ ".bcf")%string. now rewrite append_assoc. }
  unfold VcfWriter.GetOpenMode.
  pose proof (EndsWith_iff file_path ".bcf") as B.
  pose proof (EndsWith_iff file_path ".bcf.gz") as BG.
  pose proof (EndsWith_iff file_path ".gz") as G.
  destruct (VcfWriter.EndsWith file_path ".bcf");
    destruct (VcfWriter.EndsWith file_path ".bcf.gz");
    destruct (VcfWriter.EndsWith file_path ".gz");
    cbv [VcfWriter.kBCFOpenModeUncompressed VcfWriter.kBCFOpenModeCompressed
         VcfWriter.kOpenModeCompressed VcfWriter.kOpenModeUncompressed];
    repeat split; try discriminate; try tauto;
    try (intros; exfalso; intuition congruence).
Qed.

(** ** The VCF writer: header lines *)

Lemma c_str_idempotent_append (a b : string) :
  VcfWriter.c_str (VcfWriter.c_str a ++ b)
  = (VcfWriter.c_str a ++ VcfWriter.c_str b)%string.
Proof.
  induction a as [|c a IH]; simpl; [reflexivity|].
  destruct (Ascii.eqb c zero) eqn:E; simpl; [reflexivity|].
  now rewrite E, IH.
Qed.

Lemma c_str_idempotent (a : string) :
  VcfWriter.c_str (VcfWriter.c_str a) = VcfWriter.c_str a.
Proof.
  rewrite <- (append_nil_r (VcfWriter.c_str a)) at 1.
  rewrite c_str_idempotent_append. simpl. apply append_nil_r.
Qed.

Lemma pop_back_append_char (s : string) (c : ascii) :
  VcfWriter.pop_back (s ++ String c "") = s.
Proof.
  induction s as [|d s IH]; [reflexivity|].
  simpl. rewrite IH. destruct (s ++ String c "")%string eqn:E;
    [|reflexivity].
  destruct s; discriminate.
Qed.

(** The loop of [AddStructuredExtraToHeader]: every field followed by a
    comma. *)
Lemma structured_fields_fold (fields : list VcfWriter.VcfExtra) :
  forall acc,
    fold_left
      (fun fieldStr kv =>
         (fieldStr ++ VcfWriter.extra_key kv ++ "=" ++ VcfWriter.dquote
          ++ VcfWriter.extra_value kv ++ VcfWriter.dquote ++ ",")%string)
      fields acc
    = (acc
       ++ String.concat ""
            (map (fun kv =>
                    (VcfWriter.extra_key kv ++ "=" ++ VcfWriter.dquote
                     ++ VcfWriter.extra_value kv ++ VcfWriter.dquote
                     ++ ",")%string) fields))%string.
Proof.
  induction fields as [|kv rest IH]; intros acc; simpl.
  - now rewrite append_nil_r.
  - rewrite IH, append_assoc. f_equal.
    destruct rest; simpl; [now rewrite append_nil_r | reflexivity].
Qed.

Lemma concat_with_trailing_commas (items : list string) :
  items <> [] ->
  String.concat "" (map (fun s => (s ++ ",")%string) items)
  = (String.concat "," items ++ ",")%string.
Proof.
  induction items as [|x rest IH]; intros H; [now destruct H|].
  destruct rest as [|y rest]; [reflexivity|].
  change (String.concat "" (map (fun s => (s ++ ",")%string) (x :: y :: rest)))
    with ((x ++ ",") ++ ""
          ++ String.concat "" (map (fun s => (s ++ ",")%string) (y :: rest)))%string.
  rewrite IH by discriminate.
  change (String.concat "," (x :: y :: rest))
    with (x ++ "," ++ String.concat "," (y :: rest))%string.
  simpl. now rewrite !append_assoc.
Qed.

Lemma append_comma_not_empty (x : string) :
  String.eqb (x ++ ",") "" = false.
Proof. now destruct x. Qed.

(** X16.  The structured-extra header line lists the fields as
    [key="value"] items joined by commas, with no dangling comma, between
    [##<key>=<] and [>]; with no field at all the line is [##<key>=<>].
    Key and field list enter the line as C strings, that is up to their
    first NUL. *)
Theorem AddStructuredExtraToHeader_joins_fields
    (sExtra : VcfWriter.VcfStructuredExtra) (header : VcfWriter.bcf_hdr_t) :
  VcfWriter.AddStructuredExtraToHeader sExtra header
  = (header
     ++ [VcfWriter.hdr_append
           ("##" ++ VcfWriter.c_str (VcfWriter.sextra_key sExtra) ++ "=<"
            ++ VcfWriter.c_str
                 (String.concat ","
                    (map (fun kv =>
                            (VcfWriter.extra_key kv ++ "="
                             ++ VcfWriter.dquote
                             ++ VcfWriter.extra_value kv
                             ++ VcfWriter.dquote)%string)
                         (VcfWriter.sextra_fields sExtra)))
            ++ ">")%string])%list.
Proof.
  unfold VcfWriter.AddStructuredExtraToHeader, VcfWriter.bcf_hdr_append.
  rewrite structured_fields_fold.
  change (append EmptyString ?s) with s.
  set (item := fun kv =>
                 (VcfWriter.extra_key kv ++ "=" ++ VcfWriter.dquote
                  ++ VcfWriter.extra_value kv ++ VcfWriter.dquote)%string).
  assert (HF : String.concat ""
                 (map (fun kv =>
                         (VcfWriter.extra_key kv ++ "=" ++ VcfWriter.dquote
                          ++ VcfWriter.extra_value kv ++ VcfWriter.dquote
                          ++ ",")%string) (VcfWriter.sextra_fields sExtra))
               = match VcfWriter.sextra_fields sExtra with
                 | [] => ""
                 | _ => (String.concat ","
                           (map item (VcfWriter.sextra_fields sExtra))
                         ++ ",")%string
                 end).
  { destruct (VcfWriter.sextra_fields sExtra) as [|kv rest]; [reflexivity|].
    rewrite <- concat_with_trailing_commas by discriminate.
    f_equal. rewrite map_map. apply map_ext. intros a. unfold item.
    now rewrite !append_assoc. }
  rewrite HF. clear HF.
  assert (Hfield :
            (if negb (String.eqb
                        match VcfWriter.sextra_fields sExtra with
                        | [] => ""
                        | _ => (String.concat ","
                                  (map item (VcfWriter.sextra_fields sExtra))
                                ++ ",")%string
                        end "")
             then VcfWriter.pop_back
                    match VcfWriter.sextra_fields sExtra with
                    | [] => ""
                    | _ => (String.concat ","
                              (map item (VcfWriter.sextra_fields sExtra))
                            ++ ",")%string
                    end
             else match VcfWriter.sextra_fields sExtra with
                  | [] => ""
                  | _ => (String.concat ","
                            (map item (VcfWriter.sextra_fields sExtra))
                          ++ ",")%string
                  end)
            = String.concat "," (map item (VcfWriter.sextra_fields sExtra))).
  { destruct (VcfWriter.sextra_fields sExtra) as [|kv rest]; [reflexivity|].
    rewrite append_comma_not_empty. cbn [negb].
    apply pop_back_append_char. }
  rewrite Hfield. clear Hfield.
  unfold VcfWriter.Substituted, VcfWriter.kStructuredExtraHeaderFmt.
  set (key := VcfWriter.c_str (VcfWriter.sextra_key sExtra)).
  set (fieldStr := VcfWriter.c_str (String.concat "," _)).
  assert (HS : VcfWriter.Substitute "##$0=<$1>" [key; fieldStr]
               = Some ("##" ++ key ++ "=<" ++ fieldStr ++ ">")%string)
    by reflexivity.
  rewrite HS. do 3 f_equal.
  change ("##" ++ key ++ "=<" ++ fieldStr ++ ">")%string
    with (String "#" (String "#" (key ++ "=<" ++ fieldStr ++ ">")))%string.
  cbn [VcfWriter.c_str Ascii.eqb Bool.eqb zero]. do 2 f_equal.
  unfold key. rewrite c_str_idempotent_append. f_equal.
  change ("=<" ++ fieldStr ++ ">")%string
    with (String "=" (String "<" (fieldStr ++ ">")))%string.
  cbn [VcfWriter.c_str Ascii.eqb Bool.eqb zero]. do 2 f_equal.
  unfold fieldStr. now rewrite c_str_idempotent_append.
Qed.

(** ** The VCF writer: life cycle *)

(** X17.  On an open writer, a failing [hts_close] makes [Close] return
    Unknown with the writer left exactly as it was -- still holding the
    file and the header -- and makes the destructor terminate the process.
    A successful [hts_close] makes [Close] return OK and drop both the file
    and the header; from then on [Close] returns FailedPrecondition and
    the destructor returns without calling [Close]. *)
Theorem VcfWriter_close_lifecycle (w : VcfWriter.VcfWriter)
    (fp : VcfWriter.htsFile) :
  VcfWriter.fp_ w = Some fp ->
  (VcfWriter.hts_close fp < 0 ->
   VcfWriter.Close w = (VcfWriter.Fails VcfWriter.Unknown, w)
   /\ VcfWriter.destructor w = (VcfWriter.Terminates, w))
  /\ (0 <= VcfWriter.hts_close fp ->
      exists w',
        VcfWriter.Close w = (VcfWriter.Returns tt, w')
        /\ VcfWriter.fp_ w' = None /\ VcfWriter.header_ w' = None
        /\ VcfWriter.options_ w' = VcfWriter.options_ w
        /\ VcfWriter.vcf_header_ w' = VcfWriter.vcf_header_ w
        /\ VcfWriter.destructor w = (VcfWriter.Returns tt, w')
        /\ VcfWriter.Close w'
           = (VcfWriter.Fails VcfWriter.FailedPrecondition, w')
        /\ VcfWriter.destructor w' = (VcfWriter.Returns tt, w')).
Proof.
  intros Hfp. unfold VcfWriter.destructor, VcfWriter.Close. rewrite Hfp.
  split; intros H.
  - destruct (Z.ltb_spec (VcfWriter.hts_close fp) 0); [auto|lia].
  - destruct (Z.ltb_spec (VcfWriter.hts_close fp) 0); [lia|].
    eexists. repeat split.
Qed.

Lemma VcfWriter_close_lifecycle_witness :
  let fp := VcfWriter.MakeHtsFile (-1) (fun _ => 0) in
  let w := VcfWriter.MakeWriter (Some fp)
             (VcfWriter.MakeOptions [] [] false false)
             (VcfWriter.MakeVcfHeader [] [] [] [] [] [] []) (Some []) in
  VcfWriter.Close w = (VcfWriter.Fails VcfWriter.Unknown, w)
  /\ VcfWriter.destructor w = (VcfWriter.Terminates, w).
Proof.
  apply (VcfWriter_close_lifecycle
           (VcfWriter.MakeWriter
              (Some (VcfWriter.MakeHtsFile (-1) (fun _ => 0)))
              (VcfWriter.MakeOptions [] [] false false)
              (VcfWriter.MakeVcfHeader [] [] [] [] [] [] []) (Some []))
           (VcfWriter.MakeHtsFile (-1) (fun _ => 0))).
  - reflexivity.
  - simpl. lia.
Defined.

(** X18.  [ToFile] opens the path in the mode [GetOpenMode] gives for it.
    It returns Unknown when the file cannot be opened; otherwise it builds
    the header and writes it, and returns an open writer holding the file,
    the options, the [VcfHeader] and the built header.  When writing the
    header fails it closes the file again and returns Unknown -- unless
    that [hts_close] fails too, in which case the process is terminated.
    It never returns FailedPrecondition. *)
Theorem ToFile_outcome (hts_open_x : VcfWriter.hts_opener)
    (variants_path : string) (header : VcfWriter.VcfHeader)
    (options : VcfWriter.VcfWriterOptions) :
  VcfWriter.ToFile hts_open_x variants_path header options
  = match hts_open_x variants_path (VcfWriter.GetOpenMode variants_path) with
    | None => VcfWriter.Fails VcfWriter.Unknown
    | Some fp =>
        if VcfWriter.bcf_hdr_write fp (VcfWriter.build_header header) <? 0
        then if VcfWriter.hts_close fp <? 0 then VcfWriter.Terminates
             else VcfWriter.Fails VcfWriter.Unknown
        else VcfWriter.Returns
               (VcfWriter.MakeWriter (Some fp) options header
                  (Some (VcfWriter.build_header header)))
    end.
Proof.
  unfold VcfWriter.ToFile.
  destruct (hts_open_x variants_path _) as [fp|]; [|reflexivity].
  unfold VcfWriter.new_VcfWriter, VcfWriter.WriteHeader,
    VcfWriter.destructor, VcfWriter.Close. simpl.
  destruct (VcfWriter.bcf_hdr_write fp _ <? 0); [|reflexivity].
  destruct (VcfWriter.hts_close fp <? 0); reflexivity.
Qed.

(** ** The VCF writer: the header the constructor builds *)

(** A header call is in order when it is a sample, or a line that starts
    with [##]. *)
Lemma fold_left_Forall {A B : Type} (P : B -> Prop)
    (f : list B -> A -> list B) (l : list A) :
  (forall h x, Forall P h -> Forall P (f h x)) ->
  forall h, Forall P h -> Forall P (fold_left f l h).
Proof.
  intros Hf. induction l as [|x l IH]; intros h Hh; simpl; auto.
Qed.

Lemma fold_left_appends {A B : Type} (f : list B -> A -> list B)
    (l : list A) :
  (forall h x, f h x = (h ++ f [] x)%list) ->
  forall h, fold_left f l h = (h ++ flat_map (f []) l)%list.
Proof.
  intros Hf. induction l as [|x l IH]; intros h; simpl.
  - now rewrite app_nil_r.
  - now rewrite IH, (Hf h x), app_assoc.
Qed.

Lemma Forall_flat_map_each {A B : Type} (P : B -> Prop) (g : A -> list B)
    (l : list A) :
  (forall x, Forall P (g x)) -> Forall P (flat_map g l).
Proof.
  intros Hg. induction l as [|x l IH]; simpl; [constructor|].
  apply Forall_app. auto.
Qed.

Lemma length_flat_map_singletons {A B : Type} (g : A -> list B)
    (l : list A) :
  (forall x, List.length (g x) = 1%nat) ->
  List.length (flat_map g l) = List.length l.
Proof.
  intros Hg. induction l as [|x l IH]; simpl; [reflexivity|].
  now rewrite length_app, Hg, IH.
Qed.

Lemma meta_line_intro (line : string) :
  starts_meta line = true ->
  Forall meta_line_call [VcfWriter.hdr_append line].
Proof.
  intros H. constructor; [|constructor].
  destruct line as [|a [|b rest]]; try discriminate. simpl in H.
  apply andb_true_iff in H as [Ha Hb].
  apply Ascii.eqb_eq in Ha, Hb. subst. now exists rest.
Qed.

(** X19.  The header the constructor builds consists of appended lines
    followed by the samples: every appended line starts with [##] (none of
    the six formats is ever rejected, whatever the field values hold);
    there is one line per filter whose id is not [PASS], per info, format,
    structured extra, extra and contig; then come the sample names in
    order, as C strings, and the null name that ends the sample list. *)
Theorem build_header_shape (vcf_header : VcfWriter.VcfHeader) :
  exists appended,
    VcfWriter.build_header vcf_header
    = (appended
       ++ map (fun s => VcfWriter.hdr_add_sample (Some (VcfWriter.c_str s)))
              (VcfWriter.sample_names vcf_header)
       ++ [VcfWriter.hdr_add_sample None])%list
    /\ Forall meta_line_call appended
    /\ List.length appended
       = (List.length
            (filter (fun f => negb (String.eqb (VcfWriter.filter_id f) "PASS"))
                    (VcfWriter.filters vcf_header))
          + List.length (VcfWriter.infos vcf_header)
          + List.length (VcfWriter.formats vcf_header)
          + List.length (VcfWriter.structured_extras vcf_header)
          + List.length (VcfWriter.extras vcf_header)
          + List.length (VcfWriter.contigs vcf_header))%nat.
Proof.
  unfold VcfWriter.build_header. cbv zeta.
  rewrite (fold_left_appends
             (fun h sampleName =>
                VcfWriter.bcf_hdr_add_sample h (Some sampleName)))
    by reflexivity.
  rewrite (fold_left_appends
             (fun h contig => VcfWriter.AddContigToHeader contig h))
    by reflexivity.
  rewrite (fold_left_appends
             (fun h extra => VcfWriter.AddExtraToHeader extra h))
    by reflexivity.
  rewrite (fold_left_appends
             (fun h sExtra => VcfWriter.AddStructuredExtraToHeader sExtra h))
    by reflexivity.
  rewrite (fold_left_appends
             (fun h format => VcfWriter.AddFormatToHeader format h))
    by reflexivity.
  rewrite (fold_left_appends
             (fun h info => VcfWriter.AddInfoToHeader info h))
    by reflexivity.
  rewrite (fold_left_appends
             (fun h filter =>
                if negb (String.eqb (VcfWriter.filter_id filter) "PASS")
                then VcfWriter.AddFilterToHeader filter h else h)).
  2:{ intros h x. destruct (negb _); [reflexivity|].
      now rewrite app_nil_r. }
  cbn [app].
  exists (flat_map
            (fun filter =>
               if negb (String.eqb (VcfWriter.filter_id filter) "PASS")
               then VcfWriter.AddFilterToHeader filter [] else [])
            (VcfWriter.filters vcf_header)
          ++ flat_map (fun info => VcfWriter.AddInfoToHeader info [])
               (VcfWriter.infos vcf_header)
          ++ flat_map (fun format => VcfWriter.AddFormatToHeader format [])
               (VcfWriter.formats vcf_header)
          ++ flat_map
               (fun sExtra => VcfWriter.AddStructuredExtraToHeader sExtra [])
               (VcfWriter.structured_extras vcf_header)
          ++ flat_map (fun extra => VcfWriter.AddExtraToHeader extra [])
               (VcfWriter.extras vcf_header)
          ++ flat_map (fun contig => VcfWriter.AddContigToHeader contig [])
               (VcfWriter.contigs vcf_header))%list.
  split; [|split].
  - unfold VcfWriter.bcf_hdr_add_sample at 1. cbn [option_map].
    rewrite <- !app_assoc.
    do 6 (apply (f_equal2 (@app _)); [reflexivity|]).
    apply (f_equal2 (@app _)); [|reflexivity].
    induction (VcfWriter.sample_names vcf_header) as [|s l IH];
      [reflexivity|].
    cbn [flat_map map]. rewrite <- IH. reflexivity.
  - repeat (apply Forall_app; split);
      apply Forall_flat_map_each; intros x;
      try (destruct (negb _); [|constructor]);
      apply meta_line_intro; vm_compute; reflexivity.
  - rewrite !length_app.
    rewrite (length_flat_map_singletons
               (fun info => VcfWriter.AddInfoToHeader info []))
      by reflexivity.
    rewrite (length_flat_map_singletons
               (fun format => VcfWriter.AddFormatToHeader format []))
      by reflexivity.
    rewrite (length_flat_map_singletons
               (fun sExtra => VcfWriter.AddStructuredExtraToHeader sExtra []))
      by reflexivity.
    rewrite (length_flat_map_singletons
               (fun extra => VcfWriter.AddExtraToHeader extra []))
      by reflexivity.
    rewrite (length_flat_map_singletons
               (fun contig => VcfWriter.AddContigToHeader contig []))
      by reflexivity.
    repeat rewrite <- Nat.add_assoc. f_equal.
    induction (VcfWriter.filters vcf_header) as [|f l IH]; [reflexivity|].
    cbn [flat_map filter]. destruct (negb _).
    + rewrite length_app. cbn [List.length]. now rewrite IH.
    + exact IH.
Qed.
